(** * worker: a concurrent SQS consumer (worker.go)

    A shallow embedding of the [worker] package: the configuration and
    construction of a [Worker] ([NewWorker]), the shutdown signal
    ([Close]), the timeout guard ([Exec]) with its reusable timer and
    its shared outcome channel, the consumer loop and the producer loop,
    and [Run], which runs them as goroutines around one channel.

    Conventions.
    - Go's [int] and [int64] are 64-bit (the package's benchmarks are run
      on amd64); they are values of [Z] and arithmetic that can overflow
      wraps explicitly ([wrap64]).
    - [time.Duration] and instants are [Z] nanoseconds.
    - [error] is [option GoError]; [None] is Go's [nil].
    - [[]byte] is [list byte]; the [nil] slice is [[]].
    - [*sqs.Message] is [option Message] where the pointer can be nil
      (what a receive from the closed channel yields), and [Message]
      where it cannot (the messages of a response).
    - Calls to the external collaborators (the SQS client, the logger,
      the user's callback) are recorded, in order, as [Event]s. *)

From Stdlib Require Import ZArith List Bool Lia.
From Stdlib Require Import Strings.String Strings.Byte.
From Stdlib Require Import DecimalString.
Import ListNotations.
Local Open Scope string_scope.
Local Open Scope list_scope.
Local Open Scope Z_scope.

Set Implicit Arguments.

(** ** Machine integers *)

Definition wrap64 (z : Z) : Z := (z + 2 ^ 63) mod 2 ^ 64 - 2 ^ 63.

Definition int64_range (z : Z) : Prop := - 2 ^ 63 <= z < 2 ^ 63.

(** [time.Second], a [time.Duration] in nanoseconds. *)
Definition Second : Z := 1000000000.

(** ** Constants of the package *)

Definition DefaultTimeout : Z := 30.
Definition DefaultWorkers : Z := 1.
Definition MaxNumberOfMessages : Z := 1.
Definition VisibilityTimeout : Z := 60.
Definition WaitTimeSeconds : Z := 20.

(** ** Errors *)

(** The non-nil values of Go's [error] that the package meets: its own
    [HandlerTimeout], and whatever a handler or the SQS client returns,
    identified by its [Error()] text. *)
Inductive GoError : Type :=
| HandlerTimeout : GoError
| OtherError : string -> GoError.

Definition error : Type := option GoError.

Definition Error (e : GoError) : string :=
  match e with
  | HandlerTimeout => "Handler Timeout!"
  | OtherError s => s
  end.

(** ** Messages and the SQS requests the worker builds *)

Record Message : Type := {
  Body : string;
  ReceiptHandle : string
}.

Record SendMessageInput : Type := {
  send_QueueUrl : string;
  MessageBody : option string
}.

Record DeleteMessageInput : Type := {
  delete_QueueUrl : string;
  delete_ReceiptHandle : option string
}.

Record ReceiveMessageInput : Type := {
  receive_QueueUrl : string;
  receive_MaxNumberOfMessages : Z;
  receive_VisibilityTimeout : Z;
  receive_WaitTimeSeconds : Z
}.

(** ** The user's functions *)

Record consumerDone : Type := {
  Result : list byte;
  Err : error
}.

(** One run of the user's handler: how long it takes ([None]: it never
    returns; a call takes some time, hence [positive]) and what it
    returns. *)
Record HandlerRun : Type := {
  run_time : option positive;
  run_outcome : consumerDone
}.

(** The user's handler: the run of the call [w.Handler(ctx, m)] made at
    a given instant (so that a closure with state of its own, or one
    that watches [ctx], is covered).  [m] is the pointer the consumer
    received: [None] is nil.  A handler is taken to return or to run
    for ever, not to panic. *)
Definition Handler : Type := Z -> option Message -> HandlerRun.

(** [U] is the state of the embedding application that a [Callback]
    closure can reach.  A callback returns nothing to the worker, but it
    is handed the very slice that the consumer reads afterwards: besides
    the new state it gives the bytes it has written into that slice,
    from the first element on ([[]]: it has written nothing).  A
    callback is taken to return. *)
Definition Callback (U : Type) : Type :=
  list byte -> error -> U -> list byte * U.

(** The slice [data] once [new] has been written into it from its first
    element on: a callee can change the elements of a slice it is
    handed, not its length. *)
Fixpoint overwrite (data new : list byte) : list byte :=
  match data, new with
  | [], _ => []
  | _ :: _, [] => data
  | _ :: data, b :: new => b :: overwrite data new
  end.

(** A [*zap.Logger]; only its identity matters here. *)
Inductive ZapLogger : Type := zapLogger (tag : string).

(** A Go channel that is only ever closed and waited on ([Worker.done]). *)
Inductive signal : Type := SigNil | SigOpen | SigClosed.

Inductive panic : Type := Panic (msg : string).

(** The panic of the runtime on [msg.ReceiptHandle] when [msg] is nil. *)
Definition nil_dereference : panic :=
  Panic "runtime error: invalid memory address or nil pointer dereference".

(** [close(ch)] *)
Definition close (ch : signal) : panic + signal :=
  match ch with
  | SigNil => inl (Panic "close of nil channel")
  | SigClosed => inl (Panic "close of closed channel")
  | SigOpen => inr SigClosed
  end.

(** ** Worker and WorkerConfig

    [Worker.Queue] and [Worker.Session] are handles to the external
    service; the service's state is threaded through the calls instead
    (see [SQSAPI]). *)

Module WorkerConfig.
Record t (U : Type) : Type := {
  QueueIn : string;
  QueueOut : string;
  Workers : Z;
  Region : string;
  Handler : Handler;
  Callback : option (Callback U);
  Name : string;
  Timeout : Z;
  Logger : option ZapLogger
}.
End WorkerConfig.

Module Worker.
Record t (U : Type) : Type := {
  QueueInUrl : string;
  QueueOutUrl : string;
  Consumers : Z;
  Logger : option ZapLogger;
  Handler : Handler;
  Callback : option (Callback U);
  Name : string;
  Timeout : Z;
  done : signal
}.
End Worker.

Section Construction.

Variable U : Type.

(** [runtime.NumCPU()] and the result of [zap.NewProduction()] (whose
    error is dropped, so the logger can be nil). *)
Variable NumCPU : Z.
Variable NewProduction : option ZapLogger.

Definition NewWorker (wc : WorkerConfig.t U) : Worker.t U :=
  let timeout := WorkerConfig.Timeout wc in
  let workers := NumCPU in
  let timeout := if WorkerConfig.Timeout wc =? 0 then DefaultTimeout else timeout in
  let workers := if negb (WorkerConfig.Workers wc =? 0)
                 then WorkerConfig.Workers wc else workers in
  let logger := match WorkerConfig.Logger wc with
                | None => NewProduction
                | Some l => Some l
                end in
  {| Worker.QueueInUrl := WorkerConfig.QueueIn wc;
     Worker.QueueOutUrl := WorkerConfig.QueueOut wc;
     Worker.Consumers := workers;
     Worker.Logger := logger;
     Worker.Handler := WorkerConfig.Handler wc;
     Worker.Callback := WorkerConfig.Callback wc;
     Worker.Name := WorkerConfig.Name wc;
     Worker.Timeout := wrap64 (timeout * Second);
     Worker.done := SigOpen |}.

End Construction.

(** [Close]: [close(w.done)]. *)
Definition Close (U : Type) (w : Worker.t U) : panic + Worker.t U :=
  match close (Worker.done w) with
  | inl p => inl p
  | inr ch =>
      inr {| Worker.QueueInUrl := Worker.QueueInUrl w;
             Worker.QueueOutUrl := Worker.QueueOutUrl w;
             Worker.Consumers := Worker.Consumers w;
             Worker.Logger := Worker.Logger w;
             Worker.Handler := Worker.Handler w;
             Worker.Callback := Worker.Callback w;
             Worker.Name := Worker.Name w;
             Worker.Timeout := Worker.Timeout w;
             Worker.done := ch |}
  end.

(** ** time.Timer

    A timer is [armed] to fire at an instant, or not; when it fires the
    runtime puts one tick in its channel [C] (capacity one).  [Stop]
    reports whether it disarmed a timer that had not fired yet.  (With
    the unbuffered timer channel of Go 1.23 [Stop] reports true for a
    timer whose tick has not been received and drops the tick; what
    [rearm] below computes is the same.) *)

Module Timer.

Record t : Type := {
  armed : option Z;
  C : bool
}.

Definition NewTimer (now d : Z) : t :=
  {| armed := Some (now + d); C := false |}.

(** What the runtime has done to the timer by the instant [now]. *)
Definition fire (now : Z) (tm : t) : t :=
  match armed tm with
  | Some due => if due <=? now then {| armed := None; C := true |} else tm
  | None => tm
  end.

Definition Stop (now : Z) (tm : t) : bool * t :=
  let tm := fire now tm in
  match armed tm with
  | Some _ => (true, {| armed := None; C := C tm |})
  | None => (false, tm)
  end.

Definition Reset (now d : Z) (tm : t) : t :=
  {| armed := Some (now + d); C := C (fire now tm) |}.

(** [<-t.C] begun at [now]: the instant at which it receives a tick;
    [None] when no tick ever comes (nothing buffered, nothing armed). *)
Definition tick_at (now : Z) (tm : t) : option Z :=
  if C tm then Some now
  else match armed tm with
       | Some due => Some (Z.max now due)
       | None => None
       end.

(** The timer once that tick has been received. *)
Definition received (tm : t) : t := {| armed := None; C := false |}.

End Timer.

(** ** handlerParams

    [Done] is an unbuffered channel: its state is the handler tasks that
    [Exec] has launched and not yet received from, each sending on it
    from the instant it finishes ([None]: never).  [Result] is the one
    [consumerDone] that every task overwrites before it sends. *)

Record task : Type := {
  finish : option Z;
  report : consumerDone
}.

Module handlerParams.
Record t : Type := {
  Done : list task;
  Result : consumerDone;
  Timer : Timer.t
}.
End handlerParams.

Definition send_at (now : Z) (k : task) : option Z :=
  option_map (Z.max now) (finish k).

(** The instant of the first send on [Done] seen by a receive begun at
    [now]. *)
Fixpoint first_send (now : Z) (tasks : list task) : option Z :=
  match tasks with
  | [] => None
  | k :: rest =>
      match send_at now k, first_send now rest with
      | Some a, Some b => Some (Z.min a b)
      | Some a, None => Some a
      | None, o => o
      end
  end.

Definition sends_at (now t : Z) (k : task) : bool :=
  match send_at now k with
  | Some a => a =? t
  | None => false
  end.

(** The tasks left once the send of instant [t] has been received. *)
Fixpoint received_from (now t : Z) (tasks : list task) : list task :=
  match tasks with
  | [] => []
  | k :: rest =>
      if sends_at now t k then rest else k :: received_from now t rest
  end.

(** The content of the shared [hp.Result] at instant [t]: the last write
    by a task that has finished by then. *)
Fixpoint last_write (t : Z) (best : option (Z * consumerDone))
                    (tasks : list task) : option (Z * consumerDone) :=
  match tasks with
  | [] => best
  | k :: rest =>
      let best' :=
        match finish k with
        | Some f =>
            if f <=? t
            then match best with
                 | Some (b, _) => if b <=? f then Some (f, report k) else best
                 | None => Some (f, report k)
                 end
            else best
        | None => best
        end in
      last_write t best' rest
  end.

Definition Result_at (t : Z) (cell : consumerDone) (tasks : list task)
  : consumerDone :=
  match last_write t None tasks with
  | Some (_, c) => c
  | None => cell
  end.

Section Exec.

Variable U : Type.
Variable w : Worker.t U.

Definition getHandlerParams (now : Z) : handlerParams.t :=
  {| handlerParams.Done := [];
     handlerParams.Result := {| Result := []; Err := None |};
     handlerParams.Timer := Timer.NewTimer now (Worker.Timeout w) |}.

(** Lines 111-114 of [Exec]: stop the timer, drain its channel when
    [Stop] reports false, reset it.  [None]: the drain never receives
    and the consumer is parked on [<-hp.Timer.C] for ever. *)
Definition rearm (now : Z) (tm : Timer.t) : option Timer.t :=
  let (stopped, tm) := Timer.Stop now tm in
  let drained :=
    if stopped then Some tm
    else match Timer.tick_at now tm with
         | Some _ => Some (Timer.received tm)
         | None => None
         end in
  option_map (Timer.Reset now (Worker.Timeout w)) drained.

(** The handler task that [Exec] launches at [now] for [m]. *)
Definition launch (now : Z) (m : option Message) : task :=
  let run := Worker.Handler w now m in
  {| finish := option_map (fun d => now + Z.pos d) (run_time run);
     report := run_outcome run |}.

Inductive selected : Type :=
| FromDone (t : Z)
| FromTimer (t : Z)
| NoCase.

(** The [select] of [Exec], begun at [now]: the case that is ready
    first; [tie] is the runtime's choice when both are ready as the
    select looks at them.  That is so when the send and the tick come at
    the same instant.  It is also so when the tick is there at [now]
    already (a timeout that is not positive): the goroutine reaches its
    select some time after it has reset the timer and launched the
    handler, the handler may be sending by then, and Go picks among the
    ready cases at random.  That time is not measured here: with the
    tick there at [now], [tie] alone says whether a send of the handler
    was there too and was taken. *)
Definition select (now : Z) (tie : bool) (tasks : list task) (tm : Timer.t)
  : selected :=
  match first_send now tasks, Timer.tick_at now tm with
  | None, None => NoCase
  | Some t, None => FromDone t
  | None, Some d => FromTimer d
  | Some t, Some d =>
      if d <=? now then (if tie then FromDone t else FromTimer d)
      else if t <? d then FromDone t
      else if d <? t then FromTimer d
      else if tie then FromDone t else FromTimer d
  end.

(** [Exec], called at instant [now].  [None]: it never returns. *)
Definition Exec (hp : handlerParams.t) (now : Z) (tie : bool)
                (m : option Message)
  : option (list byte * error * handlerParams.t) :=
  match rearm now (handlerParams.Timer hp) with
  | None => None
  | Some tm =>
      let tasks := handlerParams.Done hp ++ [launch now m] in
      match select now tie tasks tm with
      | FromDone t =>
          let result := Result_at t (handlerParams.Result hp) tasks in
          Some (Result result, Err result,
                {| handlerParams.Done := received_from now t tasks;
                   handlerParams.Result := result;
                   handlerParams.Timer := tm |})
      | FromTimer _ =>
          Some ([], Some HandlerTimeout,
                {| handlerParams.Done := tasks;
                   handlerParams.Result := handlerParams.Result hp;
                   handlerParams.Timer := Timer.received tm |})
      | NoCase => None
      end
  end.

End Exec.

(** ** The external collaborators *)

(** [sqsiface.SQSAPI], as far as the worker uses it; [Q] is the state of
    the service (or of a mock). *)
Class SQSAPI (Q : Type) : Type := {
  SendMessage : SendMessageInput -> Q -> error * Q;
  DeleteMessage : DeleteMessageInput -> Q -> error * Q;
  ReceiveMessage : ReceiveMessageInput -> Q -> (list Message * error) * Q
}.

(** What the worker does to the outside, in the order it does it. *)
Inductive Event : Type :=
| EvCallback (result : list byte) (err : error)
| EvLogError (text app msg : string) (err : GoError)
| EvLogInfo (msg app : string)
| EvSendMessage (input : SendMessageInput) (err : error)
| EvDeleteMessage (input : DeleteMessageInput) (err : error)
| EvReceiveMessage (input : ReceiveMessageInput)
                   (messages : list Message) (err : error)
| EvPush (m : Message).

Record World (Q U : Type) : Type := {
  queue : Q;
  user : U
}.

(** Computations that change the world and record what they did. *)
Definition M (Q U A : Type) : Type := World Q U -> A * World Q U * list Event.

Definition ret {Q U A : Type} (a : A) : M Q U A := fun s => (a, s, []).

Definition bind {Q U A B : Type} (c : M Q U A) (f : A -> M Q U B) : M Q U B :=
  fun s =>
    let '(a, s1, tr1) := c s in
    let '(b, s2, tr2) := f a s1 in
    (b, s2, tr1 ++ tr2).

Notation "x <- c ;; k" := (bind c (fun x => k))
  (at level 61, c at next level, right associativity).
Notation "c ;;; k" := (bind c (fun _ => k))
  (at level 61, right associativity).

Section Loops.

Variables Q U : Type.
Context {sqs : SQSAPI Q}.
Variable w : Worker.t U.

Local Abbreviation M := (M Q U).

Definition LogError (msg : string) (err : GoError) : M unit :=
  fun s =>
    (tt, s,
     match Worker.Logger w with
     | Some _ => [EvLogError (Error err) (Worker.Name w) msg err]
     | None => []
     end).

Definition LogInfo (msg : string) : M unit :=
  fun s =>
    (tt, s,
     match Worker.Logger w with
     | Some _ => [EvLogInfo msg (Worker.Name w)]
     | None => []
     end).

Definition deleteMessage (m : DeleteMessageInput) : M error :=
  fun s =>
    let (err, q) := DeleteMessage m (queue s) in
    (err, {| queue := q; user := user s |}, [EvDeleteMessage m err]).

Definition sendMessage (msg : SendMessageInput) : M error :=
  if String.eqb (Worker.QueueOutUrl w) "" then ret None
  else fun s =>
    let (err, q) := SendMessage msg (queue s) in
    (err, {| queue := q; user := user s |}, [EvSendMessage msg err]).

(** [w.Callback(result, err)] when a callback is set; the value is the
    slice [result] as the call leaves it. *)
Definition callback (result : list byte) (err : error) : M (list byte) :=
  match Worker.Callback w with
  | Some cb =>
      fun s =>
        let (new, u) := cb result err (user s) in
        (overwrite result new, {| queue := queue s; user := u |},
         [EvCallback result err])
  | None => ret result
  end.

(** The slice [result] as the callback leaves it when called in [s]. *)
Definition written (result : list byte) (err : error) (s : World Q U)
  : list byte :=
  fst (fst (callback result err s)).

(** *** consumer *)

(** The variables of [consumer] that live across iterations. *)
Record locals : Type := {
  sendInput : SendMessageInput;
  deleteInput : DeleteMessageInput;
  hanlderInput : handlerParams.t;
  msgString : string
}.

Definition consumer_locals (now : Z) : locals :=
  {| sendInput := {| send_QueueUrl := Worker.QueueOutUrl w;
                     MessageBody := None |};
     deleteInput := {| delete_QueueUrl := Worker.QueueInUrl w;
                       delete_ReceiptHandle := None |};
     hanlderInput := getHandlerParams w now;
     msgString := "" |}.

(** Lines 146-163: what the consumer does with what it received, [msg],
    when [Exec] has returned [err] and the callback has left [result].
    Every path ends at the head of the loop, but for the panic of line
    158 on a nil [msg]. *)
Definition forward_and_acknowledge (st : locals) (msg : option Message)
           (result : list byte) (err : error) : M (panic + locals) :=
  match err with
  | Some e => LogError "handler failed!" e ;;; ret (inr st)
  | None =>
      let body := string_of_list_byte result in
      let send := {| send_QueueUrl := send_QueueUrl (sendInput st);
                     MessageBody := Some body |} in
      let st := {| sendInput := send; deleteInput := deleteInput st;
                   hanlderInput := hanlderInput st; msgString := body |} in
      err <- sendMessage send ;;
      match err with
      | Some e => LogError "send message failed!" e ;;; ret (inr st)
      | None =>
          match msg with
          | None => ret (inl nil_dereference)
          | Some msg =>
              let del := {| delete_QueueUrl :=
                              delete_QueueUrl (deleteInput st);
                            delete_ReceiptHandle :=
                              Some (ReceiptHandle msg) |} in
              let st := {| sendInput := sendInput st; deleteInput := del;
                           hanlderInput := hanlderInput st;
                           msgString := msgString st |} in
              err <- deleteMessage del ;;
              match err with
              | Some e => LogError "delete message failed!" e ;;; ret (inr st)
              | None => ret (inr st)
              end
          end
      end
  end.

(** Lines 143-163: the callback, then the rest, on the slice that the
    callback was handed. *)
Definition handled (st : locals) (msg : option Message)
                   (result : list byte) (err : error) : M (panic + locals) :=
  result <- callback result err ;;
  forward_and_acknowledge st msg result err.

(** What one [select] of the consumer's loop receives: the cancellation,
    or [msg] from [in], at instant [now] ([tie] as in [select]); [msg]
    is [None] for the nil that [in] yields once it is closed. *)
Inductive received : Type :=
| CtxDone
| Recv (now : Z) (tie : bool) (msg : option Message).

(** One reception from [in]: what [Exec] returned for it, the result as
    the callback left it, and what the consumer did. *)
Record delivery : Type := {
  d_msg : option Message;
  d_result : list byte;
  d_err : error;
  d_left : list byte;
  d_events : list Event
}.

Inductive consumer_status : Type :=
| Returned
| Parked (msg : option Message)
| Panicked (p : panic)
| Selecting (st : locals).

Definition with_handlerParams (st : locals) (hp : handlerParams.t) : locals :=
  {| sendInput := sendInput st; deleteInput := deleteInput st;
     hanlderInput := hp; msgString := msgString st |}.

(** The loop of [consumer] along a finite script of receptions.
    [Parked msg]: [Exec] never returned for [msg]; [Panicked]: the
    consumer panicked, which ends the process; [Selecting]: the script
    ended with the consumer waiting in its [select]. *)
Fixpoint consumer_loop (st : locals) (script : list received) (s : World Q U)
  : consumer_status * World Q U * list delivery :=
  match script with
  | [] => (Selecting st, s, [])
  | CtxDone :: _ => (Returned, s, [])
  | Recv now tie msg :: script =>
      match Exec w (hanlderInput st) now tie msg with
      | None => (Parked msg, s, [])
      | Some (result, err, hp) =>
          let '(r, s1, tr) :=
            handled (with_handlerParams st hp) msg result err s in
          let d := {| d_msg := msg; d_result := result; d_err := err;
                      d_left := written result err s; d_events := tr |} in
          match r with
          | inl p => (Panicked p, s1, [d])
          | inr st1 =>
              let '(status, s2, ds) := consumer_loop st1 script s1 in
              (status, s2, d :: ds)
          end
      end
  end.

(** [consumer], started at instant [now]. *)
Definition consumer (now : Z) (script : list received) (s : World Q U)
  : consumer_status * World Q U * list delivery :=
  consumer_loop (consumer_locals now) script s.

(** *** producer *)

Definition receive_params : ReceiveMessageInput :=
  {| receive_QueueUrl := Worker.QueueInUrl w;
     receive_MaxNumberOfMessages := MaxNumberOfMessages;
     receive_VisibilityTimeout := VisibilityTimeout;
     receive_WaitTimeSeconds := WaitTimeSeconds |}.

Definition receive (params : ReceiveMessageInput) : M (list Message * error) :=
  fun s =>
    let '(messages, err, q) := ReceiveMessage params (queue s) in
    ((messages, err), {| queue := q; user := user s |},
     [EvReceiveMessage params messages err]).

(** [for _, message := range messages { out <- message }] when the
    channel [out] takes [room] more messages before a send parks for
    ever; the result is the message whose send parked, if any. *)
Fixpoint push (messages : list Message) (room : nat) : M (option Message) :=
  match messages with
  | [] => ret None
  | message :: rest =>
      match room with
      | O => ret (Some message)
      | S room => (fun s => (tt, s, [EvPush message])) ;;; push rest room
      end
  end.

(** The [default] case of the producer's loop. *)
Definition poll (room : nat) : M (option Message) :=
  r <- receive receive_params ;;
  match snd r with
  | Some err => LogError "recieve messages failed!" err ;;; ret None
  | None => push (fst r) room
  end.

(** What the producer meets in one turn of its loop: whether the context
    is cancelled when it selects, and how much [out] takes. *)
Record turn : Type := {
  ctx_done : bool;
  out_room : nat
}.

Inductive producer_status : Type :=
| ProducerReturned
| ProducerParked (m : Message)
| ProducerPolling.

Fixpoint producer (script : list turn) (s : World Q U)
  : producer_status * World Q U * list (list Event) :=
  match script with
  | [] => (ProducerPolling, s, [])
  | t :: script =>
      if ctx_done t then (ProducerReturned, s, [])
      else
        let '(parked, s1, tr) := poll (out_room t) s in
        match parked with
        | Some m => (ProducerParked m, s1, [tr])
        | None =>
            let '(status, s2, trs) := producer script s1 in
            (status, s2, tr :: trs)
        end
  end.

End Loops.

(** ** A scripted queue and a sample worker

    A mock of the service, in the manner of the package's tests: it
    answers [ReceiveMessage] from a list of prepared responses, and
    rejects the bodies and receipt handles it is told to reject. *)

Module Mock.

Record t : Type := {
  inbox : list (list Message * error);
  send_fails : list string;
  delete_fails : list string
}.

Definition rejects (l : list string) (x : option string) : error :=
  match x with
  | Some x => if existsb (String.eqb x) l
              then Some (OtherError "rejected") else None
  | None => Some (OtherError "missing parameter")
  end.

Definition sqs : SQSAPI t := {|
  SendMessage := fun i q => (rejects (send_fails q) (MessageBody i), q);
  DeleteMessage := fun i q =>
    (rejects (delete_fails q) (delete_ReceiptHandle i), q);
  ReceiveMessage := fun _ q =>
    match inbox q with
    | [] => (([], None), q)
    | r :: rest => (r, {| inbox := rest; send_fails := send_fails q;
                          delete_fails := delete_fails q |})
    end
|}.

(** A handler that echoes the body; it takes 2s on the body "slow",
    never returns on "never", fails on "bad", and 5ns otherwise.  It
    takes a nil message for one with the body "nil". *)
Definition echo : Handler := fun _ m =>
  let body := match m with
              | Some m => Body m
              | None => "nil"
              end in
  {| run_time :=
       if String.eqb body "slow" then Some 2000000000%positive
       else if String.eqb body "never" then None
       else Some 5%positive;
     run_outcome :=
       {| Result := list_byte_of_string body;
          Err := if String.eqb body "bad"
                 then Some (OtherError "bad") else None |} |}.

(** A callback that counts its calls and writes nothing. *)
Definition counting : Callback nat := fun _ _ n => ([], S n).

(** A callback that counts its calls and writes an "x" over the first
    byte of the result. *)
Definition scribbling : Callback nat :=
  fun _ _ n => (list_byte_of_string "x", S n).

Definition config (out : string) (timeout : Z) : WorkerConfig.t nat :=
  {| WorkerConfig.QueueIn := "in";
     WorkerConfig.QueueOut := out;
     WorkerConfig.Workers := 0;
     WorkerConfig.Region := "us-east-1";
     WorkerConfig.Handler := echo;
     WorkerConfig.Callback := Some counting;
     WorkerConfig.Name := "TestApp";
     WorkerConfig.Timeout := timeout;
     WorkerConfig.Logger := None |}.

Definition worker : Worker.t nat :=
  NewWorker 4 (Some (zapLogger "production")) (config "out" 1).

(** The same worker without an out queue. *)
Definition no_sink : Worker.t nat :=
  NewWorker 4 (Some (zapLogger "production")) (config "" 1).

(** A [handlerParams] that no consumer holds: the task of an earlier
    message is still pending on [Done] while the timer is armed. *)
Definition stale : handlerParams.t :=
  {| handlerParams.Done :=
       [{| finish := Some 5;
           report := {| Result := list_byte_of_string "old";
                        Err := None |} |}];
     handlerParams.Result := {| Result := []; Err := None |};
     handlerParams.Timer := Timer.NewTimer 0 (Worker.Timeout worker) |}.

Definition msg (body handle : string) : Message :=
  {| Body := body; ReceiptHandle := handle |}.

Definition world : World t nat :=
  {| queue := {| inbox := [([msg "a" "T1"], None);
                           ([], Some (OtherError "timeout"));
                           ([msg "b" "T2"], None)];
                 send_fails := ["x"];
                 delete_fails := ["T9"] |};
     user := O |}.

(** A queue that holds a message on which the handler is slow, and
    another message behind it. *)
Definition backlog : World t nat :=
  {| queue := {| inbox := [([msg "slow" "T1"], None);
                           ([msg "a" "T2"], None)];
                 send_fails := [];
                 delete_fails := [] |};
     user := O |}.

(** A queue whose first response holds eleven messages. *)
Definition flood : World t nat :=
  {| queue := {| inbox := [(map (fun h => msg "a" h)
                                ["T01"; "T02"; "T03"; "T04"; "T05"; "T06";
                                 "T07"; "T08"; "T09"; "T10"; "T11"],
                            None)];
                 send_fails := [];
                 delete_fails := [] |};
     user := O |}.

(** An empty queue that rejects the body "nil". *)
Definition drained : World t nat :=
  {| queue := {| inbox := [];
                 send_fails := ["nil"];
                 delete_fails := [] |};
     user := O |}.

(** The queue of [world] when its first response is an error. *)
Definition outage : World t nat :=
  {| queue := {| inbox := [([], Some (OtherError "timeout"));
                           ([msg "b" "T2"], None)];
                 send_fails := ["x"];
                 delete_fails := ["T9"] |};
     user := O |}.

End Mock.

(** ** Vocabulary of the properties *)

(** The [handlerParams] a consumer of [w] can hold: made by
    [getHandlerParams], then passed through calls of [Exec] that
    returned. *)
Inductive reachable (U : Type) (w : Worker.t U) : handlerParams.t -> Prop :=
| reach_new : forall now, reachable w (getHandlerParams w now)
| reach_Exec : forall hp now tie m result err hp',
    reachable w hp ->
    Exec w hp now tie m = Some (result, err, hp') ->
    reachable w hp'.

(** The run of a handler takes longer than [timeout]. *)
Definition exceeds (timeout : Z) (run : HandlerRun) : Prop :=
  match run_time run with
  | Some d => timeout < Z.pos d
  | None => True
  end.

(** A timer that has fired and whose tick has been received. *)
Definition spent : Timer.t := {| Timer.armed := None; Timer.C := false |}.

(** Between two calls of [Exec] a consumer holds either no pending
    handler task and an armed timer with an empty channel, or a spent
    timer. *)
Definition rested (hp : handlerParams.t) : Prop :=
  (handlerParams.Done hp = []
   /\ exists due, handlerParams.Timer hp
                  = {| Timer.armed := Some due; Timer.C := false |})
  \/ handlerParams.Timer hp = spent.

Section Vocabulary.

Variables Q U : Type.
Variable w : Worker.t U.

(** The events of [callback] and of [LogError]. *)
Definition callback_events (result : list byte) (err : error) : list Event :=
  match Worker.Callback w with
  | Some _ => [EvCallback result err]
  | None => []
  end.

Definition logged (msg : string) (e : GoError) : list Event :=
  match Worker.Logger w with
  | Some _ => [EvLogError (Error e) (Worker.Name w) msg e]
  | None => []
  end.

(** The world once [callback] has run. *)
Definition called_back (result : list byte) (err : error) (s : World Q U)
  : World Q U :=
  match Worker.Callback w with
  | Some cb => {| queue := queue s; user := snd (cb result err (user s)) |}
  | None => s
  end.

(** A run of the consumer's loop that begins with the delivery [d]. *)
Definition delivered (d : delivery)
                     (r : consumer_status * World Q U * list delivery)
  : consumer_status * World Q U * list delivery :=
  let '(status, s, ds) := r in (status, s, d :: ds).

(** In the events [tr] of the delivery of [msg], for which the handler
    returned [result]: a [DeleteMessage] bears the receipt handle of
    [msg], comes after a successful [SendMessage] of [result] (or the
    worker has no out queue, and forwarding is a no-op), and no
    [SendMessage] comes after it; with an out queue, [SendMessage] is
    called. *)
Definition forwarded_before_acknowledged (msg : Message)
           (result : list byte) (tr : list Event) : Prop :=
  (forall pre input err post,
      tr = pre ++ EvDeleteMessage input err :: post ->
      delete_ReceiptHandle input = Some (ReceiptHandle msg)
      /\ (Worker.QueueOutUrl w = ""
          \/ exists send,
               In (EvSendMessage send None) pre
               /\ MessageBody send = Some (string_of_list_byte result))
      /\ forall send e, ~ In (EvSendMessage send e) post)
  /\ (Worker.QueueOutUrl w <> "" ->
      exists send e,
        In (EvSendMessage send e) tr
        /\ MessageBody send = Some (string_of_list_byte result)).

(** A callback that leaves the slice it is handed as it was; so does
    the absence of a callback. *)
Definition reads_only (c : option (Callback U)) : Prop :=
  match c with
  | Some cb => forall result err u, overwrite result (fst (cb result err u)) = result
  | None => True
  end.

(** The same worker with another callback, or none. *)
Definition with_Callback (c : option (Callback U)) : Worker.t U :=
  {| Worker.QueueInUrl := Worker.QueueInUrl w;
     Worker.QueueOutUrl := Worker.QueueOutUrl w;
     Worker.Consumers := Worker.Consumers w;
     Worker.Logger := Worker.Logger w;
     Worker.Handler := Worker.Handler w;
     Worker.Callback := c;
     Worker.Name := Worker.Name w;
     Worker.Timeout := Worker.Timeout w;
     Worker.done := Worker.done w |}.

End Vocabulary.

Definition no_DeleteMessage (tr : list Event) : Prop :=
  forall input err, ~ In (EvDeleteMessage input err) tr.

Definition is_Callback (e : Event) : bool :=
  match e with
  | EvCallback _ _ => true
  | _ => false
  end.

Definition is_Push (e : Event) : bool :=
  match e with
  | EvPush _ => true
  | _ => false
  end.

(** A run of the producer's loop that begins with a turn that did [tr]. *)
Definition polled (Q U : Type) (tr : list Event)
                  (r : producer_status * World Q U * list (list Event))
  : producer_status * World Q U * list (list Event) :=
  let '(status, s, trs) := r in (status, s, tr :: trs).

Definition without_callbacks (d : delivery) : delivery :=
  {| d_msg := d_msg d; d_result := d_result d; d_err := d_err d;
     d_left := d_left d;
     d_events := filter (fun e => negb (is_Callback e)) (d_events d) |}.

(** What a run of the consumer did apart from calling the callback: where
    it stopped, the state of the queue, and its deliveries without the
    callback events. *)
Definition flow (Q U : Type)
                (r : consumer_status * World Q U * list delivery)
  : consumer_status * Q * list delivery :=
  let '(status, s, ds) := r in (status, queue s, map without_callbacks ds).

(** ** Vocabulary of the further properties *)

Definition is_SendMessage (e : Event) : bool :=
  match e with
  | EvSendMessage _ _ => true
  | _ => false
  end.

Definition is_DeleteMessage (e : Event) : bool :=
  match e with
  | EvDeleteMessage _ _ => true
  | _ => false
  end.

Definition is_ReceiveMessage (e : Event) : bool :=
  match e with
  | EvReceiveMessage _ _ _ => true
  | _ => false
  end.

Definition is_LogError (e : Event) : bool :=
  match e with
  | EvLogError _ _ _ _ => true
  | _ => false
  end.

(** A call to the queue that returned an error. *)
Definition failed_call (e : Event) : bool :=
  match e with
  | EvSendMessage _ (Some _) => true
  | EvDeleteMessage _ (Some _) => true
  | EvReceiveMessage _ _ (Some _) => true
  | _ => false
  end.

(** What was handled in a delivery, apart from what the consumer then
    did with it. *)
Definition outcome (d : delivery) : option Message * list byte * error :=
  (d_msg d, d_result d, d_err d).

(** Where a run of the consumer stopped, apart from the request records
    it keeps in its variables. *)
Inductive halt : Type :=
| HaltReturned
| HaltParked (msg : option Message)
| HaltPanicked (p : panic)
| HaltSelecting (hp : handlerParams.t).

Definition halt_of (c : consumer_status) : halt :=
  match c with
  | Returned => HaltReturned
  | Parked msg => HaltParked msg
  | Panicked p => HaltPanicked p
  | Selecting st => HaltSelecting (hanlderInput st)
  end.

Definition panicked (c : consumer_status) : bool :=
  match c with
  | Panicked _ => true
  | _ => false
  end.

(** A reception that is not the nil of the closed channel. *)
Definition from_open (r : received) : bool :=
  match r with
  | Recv _ _ None => false
  | _ => true
  end.

(** What a script receives from [in], in order. *)
Fixpoint receptions (script : list received) : list (option Message) :=
  match script with
  | [] => []
  | CtxDone :: script => receptions script
  | Recv _ _ msg :: script => msg :: receptions script
  end.

Definition is_nil (A : Type) (p : option A) : bool :=
  match p with
  | Some _ => false
  | None => true
  end.

(** The messages a trace pushes on the channel, and the messages of the
    responses it received without an error, in order. *)
Fixpoint pushed (tr : list Event) : list Message :=
  match tr with
  | [] => []
  | EvPush m :: tr => m :: pushed tr
  | _ :: tr => pushed tr
  end.

Fixpoint fetched (tr : list Event) : list Message :=
  match tr with
  | [] => []
  | EvReceiveMessage _ messages None :: tr => messages ++ fetched tr
  | _ :: tr => fetched tr
  end.

Definition count (f : Event -> bool) (tr : list Event) : nat :=
  List.length (filter f tr).


Definition no_error (e : error) : bool :=
  match e with
  | None => true
  | Some _ => false
  end.

Definition has_logger (U : Type) (w : Worker.t U) : bool :=
  match Worker.Logger w with
  | Some _ => true
  | None => false
  end.

(** An event that the consumer of [w] may record in the delivery [d]:
    the callback on what [Exec] returned, a [SendMessage] of that result,
    as the callback left it, to the out queue, a [DeleteMessage] of the
    message's receipt handle from the in queue (none for a nil message),
    an error logged under the worker's name. *)
Definition consumer_event (U : Type) (w : Worker.t U) (d : delivery)
                          (e : Event) : Prop :=
  match e with
  | EvCallback result err => result = d_result d /\ err = d_err d
  | EvSendMessage input _ =>
      input = {| send_QueueUrl := Worker.QueueOutUrl w;
                 MessageBody := Some (string_of_list_byte (d_left d)) |}
  | EvDeleteMessage input _ =>
      match d_msg d with
      | Some msg =>
          input = {| delete_QueueUrl := Worker.QueueInUrl w;
                     delete_ReceiptHandle := Some (ReceiptHandle msg) |}
      | None => False
      end
  | EvLogError text app _ err => text = Error err /\ app = Worker.Name w
  | EvLogInfo _ _ => False
  | EvReceiveMessage _ _ _ => False
  | EvPush _ => False
  end.

(** The variables of a consumer of [w] address its two queues. *)
Definition addressed (U : Type) (w : Worker.t U) (st : locals) : Prop :=
  send_QueueUrl (sendInput st) = Worker.QueueOutUrl w
  /\ delete_QueueUrl (deleteInput st) = Worker.QueueInUrl w.


(** The turns of a script that poll: those before the first turn that
    finds the context cancelled. *)
Fixpoint polling_turns (script : list turn) : nat :=
  match script with
  | [] => O
  | t :: script => if ctx_done t then O else S (polling_turns script)
  end.

(** An event that the producer may record. *)
Definition producer_event (e : Event) : bool :=
  match e with
  | EvReceiveMessage _ _ _ => true
  | EvLogError _ _ _ _ => true
  | EvPush _ => true
  | _ => false
  end.


(** ** Run: the goroutines of the engine

    [Run] starts the producer, the goroutine that turns [Close] into the
    cancellation of [ctx], and one consumer per unit of [w.Consumers];
    then it waits for the consumers.  The engine below is the state of
    all these goroutines and of what they share; it moves one goroutine
    at a time, from one operation on something shared (a channel, [ctx],
    the wait group, the queue, the application state) to the next. *)

(** Where [Run] itself is: at line 202, at the [go] of line 211, at the
    [LogInfo] of line 216, in the loop of line 219 with counter [x], in
    [wg.Wait()], or returned. *)
Inductive main_pc : Type :=
| MStart
| MCanceller
| MLog
| MLoop (x : Z)
| MWait
| MReturned.

(** The goroutine of lines 206-209: not started, at the [select] of
    [producer], about to send the request, sending the messages of a
    response on [out], about to close [messages], or finished. *)
Inductive poller_pc : Type :=
| PIdle
| PSelect
| PPoll
| PSend (rest : list Message)
| PClose
| PGone.

(** The goroutine of lines 211-214: not started, on [<-w.done], about to
    call [cancel()], or finished. *)
Inductive canceller_pc : Type :=
| KIdle
| KWait
| KCancel
| KGone.

(** A consumer: at the top of [consumer], at its [select], back from
    [Exec] with an outcome, about to forward a result, about to
    acknowledge, in an [Exec] that never returns, or returned.  [msg] is
    what it received: [None] is the nil of the closed channel. *)
Inductive consumer_pc : Type :=
| CStart
| CSelect (st : locals)
| CHandled (st : locals) (msg : option Message) (result : list byte)
           (err : error)
| CForward (st : locals) (msg : option Message) (result : list byte)
| CAck (st : locals) (msg : option Message)
| CStuck (msg : option Message)
| CGone.

(** The capacity of [messages] (line 203). *)
Definition messages_cap : nat := 10.

(** The state of the engine: the worker (of which [Close] changes the
    [done] channel only), whether [ctx] is cancelled, the buffer of the
    channel [messages] and whether it is closed, where each goroutine
    is, the world, the events recorded so far, and the messages that
    the consumers have received from the channel so far, in order (a
    record of the past, which no goroutine reads). *)
Module Engine.

Record t (Q U : Type) : Type := {
  worker : Worker.t U;
  cancelled : bool;
  messages : list Message;
  closed : bool;
  main : main_pc;
  poller : poller_pc;
  canceller : canceller_pc;
  consumers : list consumer_pc;
  world : World Q U;
  trace : list Event;
  taken : list Message
}.

End Engine.

(** [fmt.Sprint("Staring consumer with ", w.Consumers, " consumers")]:
    no space is added next to a string operand. *)
Definition Sprint_consumers (n : Z) : string :=
  String.append "Staring consumer with "
    (String.append (DecimalString.NilZero.string_of_int (Z.to_int n))
                   " consumers").

Fixpoint put (A : Type) (i : nat) (a : A) (l : list A) : list A :=
  match l, i with
  | [], _ => []
  | _ :: l, O => a :: l
  | x :: l, S i => x :: put i a l
  end.

Definition is_CGone (c : consumer_pc) : bool :=
  match c with
  | CGone => true
  | _ => false
  end.

(** What the scheduler and the outside do next: a call of [Close], or a
    move of one goroutine.  A consumer's move comes with the choice of
    its [select] when the cancellation and a message are both there,
    and with the instant and the choice that [Exec] needs. *)
Inductive action : Type :=
| ActClose
| ActMain
| ActPoller
| ActCanceller
| ActConsumer (i : nat) (take_ctx : bool) (now : Z) (tie : bool).

Section EngineSteps.

Variables Q U : Type.
Context {sqs : SQSAPI Q}.

Local Abbreviation engine := (Engine.t Q U).

(** The engine once a computation on the world has run in it. *)
Definition after (A : Type) (e : engine) (c : M Q U A) : A * engine :=
  let '(a, s, tr) := c (Engine.world e) in
  (a, {| Engine.worker := Engine.worker e;
         Engine.cancelled := Engine.cancelled e;
         Engine.messages := Engine.messages e;
         Engine.closed := Engine.closed e;
         Engine.main := Engine.main e;
         Engine.poller := Engine.poller e;
         Engine.canceller := Engine.canceller e;
         Engine.consumers := Engine.consumers e;
         Engine.world := s;
         Engine.trace := Engine.trace e ++ tr;
         Engine.taken := Engine.taken e |}).

Definition set_main (e : engine) (pc : main_pc) : engine :=
  {| Engine.worker := Engine.worker e;
     Engine.cancelled := Engine.cancelled e;
     Engine.messages := Engine.messages e;
     Engine.closed := Engine.closed e;
     Engine.main := pc;
     Engine.poller := Engine.poller e;
     Engine.canceller := Engine.canceller e;
     Engine.consumers := Engine.consumers e;
     Engine.world := Engine.world e;
     Engine.trace := Engine.trace e;
     Engine.taken := Engine.taken e |}.

Definition set_poller (e : engine) (pc : poller_pc) : engine :=
  {| Engine.worker := Engine.worker e;
     Engine.cancelled := Engine.cancelled e;
     Engine.messages := Engine.messages e;
     Engine.closed := Engine.closed e;
     Engine.main := Engine.main e;
     Engine.poller := pc;
     Engine.canceller := Engine.canceller e;
     Engine.consumers := Engine.consumers e;
     Engine.world := Engine.world e;
     Engine.trace := Engine.trace e;
     Engine.taken := Engine.taken e |}.

Definition set_canceller (e : engine) (pc : canceller_pc) : engine :=
  {| Engine.worker := Engine.worker e;
     Engine.cancelled := Engine.cancelled e;
     Engine.messages := Engine.messages e;
     Engine.closed := Engine.closed e;
     Engine.main := Engine.main e;
     Engine.poller := Engine.poller e;
     Engine.canceller := pc;
     Engine.consumers := Engine.consumers e;
     Engine.world := Engine.world e;
     Engine.trace := Engine.trace e;
     Engine.taken := Engine.taken e |}.

Definition set_consumers (e : engine) (cs : list consumer_pc) : engine :=
  {| Engine.worker := Engine.worker e;
     Engine.cancelled := Engine.cancelled e;
     Engine.messages := Engine.messages e;
     Engine.closed := Engine.closed e;
     Engine.main := Engine.main e;
     Engine.poller := Engine.poller e;
     Engine.canceller := Engine.canceller e;
     Engine.consumers := cs;
     Engine.world := Engine.world e;
     Engine.trace := Engine.trace e;
     Engine.taken := Engine.taken e |}.

Definition set_consumer (e : engine) (i : nat) (pc : consumer_pc) : engine :=
  set_consumers e (put i pc (Engine.consumers e)).

(** [ctx] is cancelled. *)
Definition cancel (e : engine) : engine :=
  {| Engine.worker := Engine.worker e;
     Engine.cancelled := true;
     Engine.messages := Engine.messages e;
     Engine.closed := Engine.closed e;
     Engine.main := Engine.main e;
     Engine.poller := Engine.poller e;
     Engine.canceller := Engine.canceller e;
     Engine.consumers := Engine.consumers e;
     Engine.world := Engine.world e;
     Engine.trace := Engine.trace e;
     Engine.taken := Engine.taken e |}.

(** The buffer of [messages] becomes [buf]; [closing] closes the
    channel; [got] is what a consumer has just received from it. *)
Definition set_messages (e : engine) (buf : list Message) (closing : bool)
                        (got : list Message) (tr : list Event) : engine :=
  {| Engine.worker := Engine.worker e;
     Engine.cancelled := Engine.cancelled e;
     Engine.messages := buf;
     Engine.closed := Engine.closed e || closing;
     Engine.main := Engine.main e;
     Engine.poller := Engine.poller e;
     Engine.canceller := Engine.canceller e;
     Engine.consumers := Engine.consumers e;
     Engine.world := Engine.world e;
     Engine.trace := Engine.trace e ++ tr;
     Engine.taken := Engine.taken e ++ got |}.

Definition set_worker (e : engine) (w : Worker.t U) : engine :=
  {| Engine.worker := w;
     Engine.cancelled := Engine.cancelled e;
     Engine.messages := Engine.messages e;
     Engine.closed := Engine.closed e;
     Engine.main := Engine.main e;
     Engine.poller := Engine.poller e;
     Engine.canceller := Engine.canceller e;
     Engine.consumers := Engine.consumers e;
     Engine.world := Engine.world e;
     Engine.trace := Engine.trace e;
     Engine.taken := Engine.taken e |}.

(** The outcome of an action: the next state; nothing, when the
    goroutine is blocked, not started or finished; or a panic, which
    ends the process. *)
Inductive stepped : Type :=
| Next (e : engine)
| Idle
| Crash (p : panic).

(** [Run], lines 202-226. *)
Definition step_main (e : engine) : stepped :=
  let w := Engine.worker e in
  match Engine.main e with
  | MStart =>
      let (_, e) := after e (LogInfo w "Staring producer") in
      Next (set_main (set_poller e PSelect) MCanceller)
  | MCanceller => Next (set_main (set_canceller e KWait) MLog)
  | MLog =>
      let (_, e) := after e (LogInfo w (Sprint_consumers (Worker.Consumers w))) in
      Next (set_main e (MLoop 0))
  | MLoop x =>
      if x <? Worker.Consumers w
      then Next (set_main (set_consumers e (Engine.consumers e ++ [CStart]))
                          (MLoop (x + 1)))
      else Next (set_main e MWait)
  | MWait =>
      if forallb is_CGone (Engine.consumers e)
      then Next (set_main e MReturned)
      else Idle
  | MReturned => Idle
  end.

(** The goroutine of lines 206-209: [producer], lines 168-195, one
    operation at a time, then [close(messages)]. *)
Definition step_poller (e : engine) : stepped :=
  let w := Engine.worker e in
  match Engine.poller e with
  | PIdle => Idle
  | PSelect =>
      Next (set_poller e (if Engine.cancelled e then PClose else PPoll))
  | PPoll =>
      let (r, e) := after e (receive (receive_params w)) in
      match snd r with
      | Some err =>
          let (_, e) := after e (LogError w "recieve messages failed!" err) in
          Next (set_poller e PSelect)
      | None =>
          Next (set_poller e (match fst r with
                              | [] => PSelect
                              | _ :: _ => PSend (fst r)
                              end))
      end
  | PSend [] => Next (set_poller e PSelect)
  | PSend (message :: rest) =>
      if (List.length (Engine.messages e) <? messages_cap)%nat
      then Next (set_poller
                   (set_messages e (Engine.messages e ++ [message]) false []
                                 [EvPush message])
                   (match rest with
                    | [] => PSelect
                    | _ :: _ => PSend rest
                    end))
      else Idle
  | PClose => Next (set_poller (set_messages e (Engine.messages e) true [] [])
                               PGone)
  | PGone => Idle
  end.

(** The goroutine of lines 211-214. *)
Definition step_canceller (e : engine) : stepped :=
  match Engine.canceller e with
  | KIdle => Idle
  | KWait =>
      match Worker.done (Engine.worker e) with
      | SigClosed => Next (set_canceller e KCancel)
      | _ => Idle
      end
  | KCancel => Next (set_canceller (cancel e) KGone)
  | KGone => Idle
  end.

(** The consumer of [w] that has received [msg] at its select calls
    [Exec]. *)
Definition back_from_Exec (w : Worker.t U) (st : locals)
           (now : Z) (tie : bool) (msg : option Message) : consumer_pc :=
  match Exec w (hanlderInput st) now tie msg with
  | None => CStuck msg
  | Some (result, err, hp) =>
      CHandled (with_handlerParams st hp) msg result err
  end.

(** A consumer, lines 131-166.  At its select it takes the cancellation
    or receives from [messages], whichever is ready ([take_ctx] when
    both are); a closed and empty channel is ready and yields nil. *)
Definition step_consumer (e : engine) (i : nat) (take_ctx : bool)
                         (now : Z) (tie : bool) : stepped :=
  let w := Engine.worker e in
  match nth_error (Engine.consumers e) i with
  | None => Idle
  | Some CStart => Next (set_consumer e i (CSelect (consumer_locals w now)))
  | Some (CSelect st) =>
      let on_ctx := Engine.cancelled e in
      let on_in := match Engine.messages e with
                   | _ :: _ => true
                   | [] => Engine.closed e
                   end in
      if on_ctx && (take_ctx || negb on_in)
      then Next (set_consumer e i CGone)
      else
        match Engine.messages e with
        | msg :: buf =>
            let e := set_messages e buf false [msg] [] in
            Next (set_consumer e i (back_from_Exec w st now tie (Some msg)))
        | [] =>
            if Engine.closed e
            then Next (set_consumer e i (back_from_Exec w st now tie None))
            else Idle
        end
  | Some (CHandled st msg result err) =>
      let (result, e) := after e (callback w result err) in
      match err with
      | Some err =>
          let (_, e) := after e (LogError w "handler failed!" err) in
          Next (set_consumer e i (CSelect st))
      | None => Next (set_consumer e i (CForward st msg result))
      end
  | Some (CForward st msg result) =>
      let body := string_of_list_byte result in
      let send := {| send_QueueUrl := send_QueueUrl (sendInput st);
                     MessageBody := Some body |} in
      let st := {| sendInput := send; deleteInput := deleteInput st;
                   hanlderInput := hanlderInput st; msgString := body |} in
      let (err, e) := after e (sendMessage w send) in
      match err with
      | Some err =>
          let (_, e) := after e (LogError w "send message failed!" err) in
          Next (set_consumer e i (CSelect st))
      | None => Next (set_consumer e i (CAck st msg))
      end
  | Some (CAck st None) => Crash nil_dereference
  | Some (CAck st (Some msg)) =>
      let del := {| delete_QueueUrl := delete_QueueUrl (deleteInput st);
                    delete_ReceiptHandle := Some (ReceiptHandle msg) |} in
      let st := {| sendInput := sendInput st; deleteInput := del;
                   hanlderInput := hanlderInput st;
                   msgString := msgString st |} in
      let (err, e) := after e (deleteMessage del) in
      match err with
      | Some err =>
          let (_, e) := after e (LogError w "delete message failed!" err) in
          Next (set_consumer e i (CSelect st))
      | None => Next (set_consumer e i (CSelect st))
      end
  | Some (CStuck _) => Idle
  | Some CGone => Idle
  end.

Definition step (e : engine) (a : action) : stepped :=
  match a with
  | ActClose =>
      match Close (Engine.worker e) with
      | inl p => Crash p
      | inr w => Next (set_worker e w)
      end
  | ActMain => step_main e
  | ActPoller => step_poller e
  | ActCanceller => step_canceller e
  | ActConsumer i take_ctx now tie => step_consumer e i take_ctx now tie
  end.

(** The engine along a schedule; an action that cannot move is skipped,
    a panic ends the run. *)
Fixpoint run (e : engine) (schedule : list action) : panic + engine :=
  match schedule with
  | [] => inr e
  | a :: schedule =>
      match step e a with
      | Next e => run e schedule
      | Idle => run e schedule
      | Crash p => inl p
      end
  end.

(** The engine when [Run] is called on [w]. *)
Definition Run_called (w : Worker.t U) (s : World Q U) : engine :=
  {| Engine.worker := w;
     Engine.cancelled := false;
     Engine.messages := [];
     Engine.closed := false;
     Engine.main := MStart;
     Engine.poller := PIdle;
     Engine.canceller := KIdle;
     Engine.consumers := [];
     Engine.world := s;
     Engine.trace := [];
     Engine.taken := [] |}.

(** [Run], along a schedule. *)
Definition Run (w : Worker.t U) (s : World Q U) (schedule : list action)
  : panic + engine :=
  run (Run_called w s) schedule.

End EngineSteps.


(** The messages that the producer goroutine holds between a response
    and their sends. *)
Definition pending (pc : poller_pc) : list Message :=
  match pc with
  | PSend rest => rest
  | _ => []
  end.

Section EngineInvariants.

Variables Q U : Type.
Variable e : Engine.t Q U.

(** The cancellation comes from [Close] only, and a consumer returns on
    the cancellation only. *)
Definition cancellation_chain : Prop :=
  (Engine.cancelled e = true -> Worker.done (Engine.worker e) = SigClosed)
  /\ (Engine.canceller e = KCancel ->
      Worker.done (Engine.worker e) = SigClosed)
  /\ (In CGone (Engine.consumers e) -> Engine.cancelled e = true).

(** [Run] has started as many consumers as its loop has gone round, and
    returns from [wg.Wait()] only when all of them have returned. *)
Definition wait_group : Prop :=
  match Engine.main e with
  | MStart | MCanceller | MLog => Engine.consumers e = []
  | MLoop x =>
      0 <= x <= Z.max 0 (Worker.Consumers (Engine.worker e))
      /\ List.length (Engine.consumers e) = Z.to_nat x
  | MWait =>
      List.length (Engine.consumers e)
      = Z.to_nat (Worker.Consumers (Engine.worker e))
  | MReturned =>
      List.length (Engine.consumers e)
      = Z.to_nat (Worker.Consumers (Engine.worker e))
      /\ forallb is_CGone (Engine.consumers e) = true
  end.

(** The channel [messages] holds at most [messages_cap] messages; it is
    closed by the producer goroutine as its last act, after it has seen
    the cancellation. *)
Definition channel_kept : Prop :=
  (List.length (Engine.messages e) <= messages_cap)%nat
  /\ (Engine.closed e = true <-> Engine.poller e = PGone)
  /\ (Engine.poller e = PClose \/ Engine.poller e = PGone ->
      Engine.cancelled e = true)
  /\ (Engine.main e = MStart ->
      Engine.poller e = PIdle /\ Engine.messages e = []).

(** Every message fetched without an error is, in the order of the
    fetches, either taken by a consumer, or in the channel, or still
    held by the producer goroutine. *)
Definition conserved : Prop :=
  pushed (Engine.trace e) = Engine.taken e ++ Engine.messages e
  /\ fetched (Engine.trace e)
     = Engine.taken e ++ Engine.messages e ++ pending (Engine.poller e).

End EngineInvariants.




Definition is_ActClose (a : action) : bool :=
  match a with
  | ActClose => true
  | _ => false
  end.

(** The number of calls of [Close] in a schedule. *)
Definition closes (schedule : list action) : nat :=
  List.length (filter is_ActClose schedule).

(** The number of moves that [Run] is away from its return when nothing
    holds it up. *)
Definition main_rank (pc : main_pc) : nat :=
  match pc with
  | MStart => 5
  | MCanceller => 4
  | MLog => 3
  | MLoop _ => 2
  | MWait => 1
  | MReturned => 0
  end.


(** ** Sample schedules *)

Module Schedules.

(** [Run] up to [wg.Wait()] on a worker with four consumers. *)
Definition startup : list action :=
  [ActMain; ActMain; ActMain; ActMain; ActMain; ActMain; ActMain; ActMain].

(** One turn of the producer goroutine that fetches and pushes one
    message. *)
Definition fetch_one : list action := [ActPoller; ActPoller; ActPoller].

(** The four consumers start, [Close] is called, the cancellation
    reaches them and [Run] returns. *)
Definition shutdown : list action :=
  startup
  ++ [ActConsumer 0 false 0 true; ActConsumer 1 false 0 true;
      ActConsumer 2 false 0 true; ActConsumer 3 false 0 true]
  ++ [ActClose; ActCanceller; ActCanceller]
  ++ [ActConsumer 0 true 5 true; ActConsumer 1 true 5 true;
      ActConsumer 2 true 5 true; ActConsumer 3 true 5 true]
  ++ [ActMain].

(** Two messages are fetched; the first consumer takes the first, whose
    handler is slow, gets the timeout, and takes the second. *)
Definition timeout : list action :=
  startup ++ fetch_one ++ fetch_one
  ++ [ActConsumer 0 false 0 true;
      ActConsumer 0 false 10 true;
      ActConsumer 0 false 10 true;
      ActConsumer 0 false 3000000000 true].

(** One message is fetched; the first consumer takes it and is back
    from [Exec] with the handler's result. *)
Definition handle_one : list action :=
  startup ++ fetch_one
  ++ [ActConsumer 0 false 0 true; ActConsumer 0 false 10 true].

(** The producer goroutine fetches and fills the channel while no
    consumer takes anything; then [Close] is called, the consumers
    return and [Run] returns. *)
Definition overflow : list action :=
  startup
  ++ [ActPoller; ActPoller]
  ++ repeat ActPoller 11
  ++ [ActConsumer 0 false 0 true; ActConsumer 1 false 0 true;
      ActConsumer 2 false 0 true; ActConsumer 3 false 0 true]
  ++ [ActClose; ActCanceller; ActCanceller]
  ++ [ActConsumer 0 true 5 true; ActConsumer 1 true 5 true;
      ActConsumer 2 true 5 true; ActConsumer 3 true 5 true]
  ++ [ActMain].

(** The four consumers start, [Close] is called, the producer goroutine
    sees the cancellation and closes the channel; the first consumer
    receives nil from it. *)
Definition nil_received : list action :=
  startup
  ++ [ActConsumer 0 false 0 true; ActConsumer 1 false 0 true;
      ActConsumer 2 false 0 true; ActConsumer 3 false 0 true]
  ++ [ActClose; ActCanceller; ActCanceller; ActPoller; ActPoller]
  ++ [ActConsumer 0 false 5 true].

(** The first consumer goes through lines 143-156 with the nil, comes
    back to its select and takes the cancellation, as the others do;
    [Run] returns. *)
Definition through_nil : list action :=
  nil_received
  ++ [ActConsumer 0 false 10 true; ActConsumer 0 false 10 true;
      ActConsumer 0 true 10 true]
  ++ [ActConsumer 1 true 10 true; ActConsumer 2 true 10 true;
      ActConsumer 3 true 10 true]
  ++ [ActMain].

(** [Close] is called and every goroutine that can move does. *)
Definition wind_down : list action :=
  [ActClose; ActCanceller; ActCanceller; ActPoller; ActPoller;
   ActConsumer 0 true 5 true;
   ActConsumer 1 false 5 true; ActConsumer 1 true 5 true;
   ActConsumer 2 false 5 true; ActConsumer 2 true 5 true;
   ActConsumer 3 false 5 true; ActConsumer 3 true 5 true;
   ActMain].

(** A worker configured with a negative number of consumers. *)
Definition no_consumers : Worker.t nat :=
  NewWorker 4 None
    {| WorkerConfig.QueueIn := "in";
       WorkerConfig.QueueOut := "out";
       WorkerConfig.Workers := -1;
       WorkerConfig.Region := "us-east-1";
       WorkerConfig.Handler := Mock.echo;
       WorkerConfig.Callback := None;
       WorkerConfig.Name := "TestApp";
       WorkerConfig.Timeout := 1;
       WorkerConfig.Logger := None |}.

End Schedules.

(** One move of a consumer that is not at its select: what it leaves. *)
Definition moved (Q U : Type) (e e1 : Engine.t Q U) (i : nat) (pc : consumer_pc)
                 (s1 : World Q U) (tr : list Event) : Prop :=
  Engine.worker e1 = Engine.worker e
  /\ nth_error (Engine.consumers e1) i = Some pc
  /\ Engine.world e1 = s1
  /\ Engine.trace e1 = Engine.trace e ++ tr.


Definition is_LogInfo (e : Event) : bool :=
  match e with
  | EvLogInfo _ _ => true
  | _ => false
  end.

(** The lines that [Run] has logged when it is at [pc]. *)
Definition info_lines (U : Type) (w : Worker.t U) (pc : main_pc)
  : list Event :=
  match Worker.Logger w with
  | None => []
  | Some _ =>
      match pc with
      | MStart => []
      | MCanceller | MLog => [EvLogInfo "Staring producer" (Worker.Name w)]
      | _ => [EvLogInfo "Staring producer" (Worker.Name w);
              EvLogInfo (Sprint_consumers (Worker.Consumers w))
                        (Worker.Name w)]
      end
  end.

Definition info_logged (Q U : Type) (e : Engine.t Q U) : Prop :=
  filter is_LogInfo (Engine.trace e)
  = info_lines (Engine.worker e) (Engine.main e).

(** * Properties *)

(** ** NewWorker *)

Lemma wrap64_small (z : Z) : int64_range z -> wrap64 z = z.
Proof.
  unfold int64_range, wrap64. intros H.
  rewrite Z.mod_small by lia. lia.
Qed.

(** C6. [NewWorker] applies the defaults: the number of consumers is
    [runtime.NumCPU()] when [Workers] is 0 and [Workers] otherwise; the
    timeout is 30 seconds when [Timeout] is 0 and is computed from
    [Timeout] ([time.Duration(Timeout) * time.Second]) otherwise. *)
Theorem NewWorker_defaults :
  forall (U : Type) (NumCPU : Z) (NewProduction : option ZapLogger)
         (wc : WorkerConfig.t U),
    Worker.Consumers (NewWorker NumCPU NewProduction wc)
      = (if WorkerConfig.Workers wc =? 0 then NumCPU
         else WorkerConfig.Workers wc)
    /\ Worker.Timeout (NewWorker NumCPU NewProduction wc)
      = (if WorkerConfig.Timeout wc =? 0 then 30 * Second
         else wrap64 (WorkerConfig.Timeout wc * Second)).
Proof.
  intros U NumCPU NewProduction wc. unfold NewWorker; simpl. split.
  - destruct (WorkerConfig.Workers wc =? 0); reflexivity.
  - destruct (WorkerConfig.Timeout wc =? 0); [| reflexivity].
    apply wrap64_small. unfold int64_range, DefaultTimeout, Second. lia.
Qed.

(** C9, as the code has it. For a non-zero [Timeout] of [t] seconds with
    [|t| <= 9223372036], the worker's timeout is [t] seconds. *)
Theorem NewWorker_timeout_seconds :
  forall (U : Type) (NumCPU : Z) (NewProduction : option ZapLogger)
         (wc : WorkerConfig.t U),
    WorkerConfig.Timeout wc <> 0 ->
    - 9223372036 <= WorkerConfig.Timeout wc <= 9223372036 ->
    Worker.Timeout (NewWorker NumCPU NewProduction wc)
      = WorkerConfig.Timeout wc * Second.
Proof.
  intros U NumCPU NewProduction wc Hnz Hrange. unfold NewWorker; simpl.
  apply Z.eqb_neq in Hnz. rewrite Hnz.
  apply wrap64_small. unfold int64_range, Second. lia.
Qed.

Lemma NewWorker_timeout_seconds_witness :
  WorkerConfig.Timeout (Mock.config "out" 1) <> 0
  /\ - 9223372036 <= WorkerConfig.Timeout (Mock.config "out" 1) <= 9223372036
  /\ Worker.Timeout Mock.worker = 1 * Second.
Proof.
  split; [simpl; lia |]. split; [simpl; lia |].
  apply (@NewWorker_timeout_seconds nat 4 (Some (zapLogger "production"))
           (Mock.config "out" 1)); simpl; lia.
Defined.

(** C9 as stated fails: a [Timeout] of 9223372037 seconds, an [int], is
    not stored as that many seconds; the product wraps round. *)
Lemma NewWorker_timeout_wraps :
  int64_range (WorkerConfig.Timeout (Mock.config "out" 9223372037))
  /\ WorkerConfig.Timeout (Mock.config "out" 9223372037) <> 0
  /\ Worker.Timeout (NewWorker 4 None (Mock.config "out" 9223372037))
     = -9223372036709551616
  /\ Worker.Timeout (NewWorker 4 None (Mock.config "out" 9223372037))
     <> WorkerConfig.Timeout (Mock.config "out" 9223372037) * Second.
Proof.
  repeat split; try (vm_compute; congruence).
Qed.

(** ** Close *)

(** C5, as the code has it. The first [Close] of a worker whose [done]
    channel is open closes the channel without a panic; a further
    [Close] of that worker panics. *)
Theorem Close_once :
  forall (U : Type) (w : Worker.t U),
    Worker.done w = SigOpen ->
    exists w' : Worker.t U,
      Close w = inr w'
      /\ Worker.done w' = SigClosed
      /\ Close w' = inl (Panic "close of closed channel").
Proof.
  intros U w Hopen. unfold Close. rewrite Hopen. simpl.
  eexists. split; [reflexivity |]. split; reflexivity.
Qed.

Lemma Close_once_witness :
  Worker.done Mock.worker = SigOpen
  /\ exists w' : Worker.t nat,
       Close Mock.worker = inr w'
       /\ Worker.done w' = SigClosed
       /\ Close w' = inl (Panic "close of closed channel").
Proof.
  split; [reflexivity |].
  apply (@Close_once nat Mock.worker). reflexivity.
Defined.

(** C5 as stated fails: the second [Close] of a worker made by
    [NewWorker] panics. *)
Lemma Close_twice_panics :
  exists w' : Worker.t nat,
    Close Mock.worker = inr w'
    /\ Close w' = inl (Panic "close of closed channel").
Proof.
  eexists. split; reflexivity.
Qed.

(** ** Exec *)

Section ExecFacts.

Variable U : Type.
Variable w : Worker.t U.

Lemma rearm_spent (now : Z) : rearm w now spent = None.
Proof. reflexivity. Qed.

Lemma rearm_armed (now due : Z) :
  rearm w now {| Timer.armed := Some due; Timer.C := false |}
  = Some {| Timer.armed := Some (now + Worker.Timeout w); Timer.C := false |}.
Proof.
  unfold rearm, Timer.Stop, Timer.fire; simpl.
  destruct (due <=? now); reflexivity.
Qed.

Lemma Exec_spent (hp : handlerParams.t) (now : Z) (tie : bool)
                 (m : option Message) :
  handlerParams.Timer hp = spent -> Exec w hp now tie m = None.
Proof.
  intros H. unfold Exec. rewrite H, rearm_spent. reflexivity.
Qed.

Lemma first_send_launch (now : Z) (m : option Message) :
  first_send now [launch w now m]
  = option_map (fun d => now + Z.pos d) (run_time (Worker.Handler w now m)).
Proof.
  unfold first_send, send_at, launch; simpl.
  destruct (run_time (Worker.Handler w now m)) as [d |]; simpl; [| reflexivity].
  f_equal. lia.
Qed.

(** With no task pending and the timer armed, [Exec] returns the outcome
    of its own handler or the timeout. *)
Lemma Exec_rested (hp : handlerParams.t) (now due : Z) (tie : bool)
                  (m : option Message) :
  handlerParams.Done hp = [] ->
  handlerParams.Timer hp = {| Timer.armed := Some due; Timer.C := false |} ->
  let tm := {| Timer.armed := Some (now + Worker.Timeout w);
               Timer.C := false |} in
  let out := run_outcome (Worker.Handler w now m) in
  Exec w hp now tie m
  = match select now tie [launch w now m] tm with
    | FromDone _ =>
        Some (Result out, Err out,
              {| handlerParams.Done := [];
                 handlerParams.Result := out;
                 handlerParams.Timer := tm |})
    | FromTimer _ =>
        Some ([], Some HandlerTimeout,
              {| handlerParams.Done := [launch w now m];
                 handlerParams.Result := handlerParams.Result hp;
                 handlerParams.Timer := spent |})
    | NoCase => None
    end.
Proof.
  intros HD HT tm out. subst tm.
  unfold Exec. rewrite HT, rearm_armed, HD. simpl app.
  unfold select. rewrite first_send_launch.
  unfold Timer.tick_at. cbn [Timer.C Timer.armed].
  assert (Hrecv : forall d : positive,
             run_time (Worker.Handler w now m) = Some d ->
             Result_at (now + Z.pos d) (handlerParams.Result hp)
                       [launch w now m] = out
             /\ received_from now (now + Z.pos d) [launch w now m] = []).
  { intros d Hd. unfold Result_at, received_from, sends_at, send_at, launch.
    simpl. rewrite Hd. simpl.
    rewrite Z.leb_refl.
    replace (Z.max now (now + Z.pos d) =? now + Z.pos d) with true
      by (symmetry; apply Z.eqb_eq; lia).
    split; reflexivity. }
  destruct (run_time (Worker.Handler w now m)) as [d |] eqn:Hd;
    cbn [option_map]; [| reflexivity].
  destruct (Hrecv d eq_refl) as [Hres Hrem].
  destruct (Z.max now (now + Worker.Timeout w) <=? now);
    [destruct tie; [rewrite Hres, Hrem; reflexivity | reflexivity] |].
  destruct (now + Z.pos d <? Z.max now (now + Worker.Timeout w));
    [rewrite Hres, Hrem; reflexivity |].
  destruct (Z.max now (now + Worker.Timeout w) <? now + Z.pos d);
    [reflexivity |].
  destruct tie; [rewrite Hres, Hrem; reflexivity | reflexivity].
Qed.

Lemma Exec_keeps_rested (hp hp' : handlerParams.t) (now : Z) (tie : bool)
                        (m : option Message) (result : list byte)
                        (err : error) :
  rested hp ->
  Exec w hp now tie m = Some (result, err, hp') ->
  rested hp'.
Proof.
  intros [[HD [due HT]] | Hspent] HE.
  - rewrite (Exec_rested hp now tie m HD HT) in HE.
    destruct (select now tie [launch w now m] _); inversion HE; subst.
    + left. simpl. split; [reflexivity | eexists; reflexivity].
    + right. reflexivity.
  - rewrite Exec_spent in HE by assumption. discriminate.
Qed.

Lemma reachable_rested (hp : handlerParams.t) : reachable w hp -> rested hp.
Proof.
  induction 1 as [now | hp now tie m result err hp' _ IH HE].
  - left. split; [reflexivity |]. eexists. reflexivity.
  - eapply Exec_keeps_rested; eassumption.
Qed.

(** With a positive timeout the select waits for the first of the
    handler's send and the tick. *)
Lemma select_positive (now : Z) (tie : bool) (m : option Message) :
  0 < Worker.Timeout w ->
  select now tie [launch w now m]
         {| Timer.armed := Some (now + Worker.Timeout w); Timer.C := false |}
  = match run_time (Worker.Handler w now m) with
    | None => FromTimer (now + Worker.Timeout w)
    | Some d =>
        if Z.pos d <? Worker.Timeout w then FromDone (now + Z.pos d)
        else if Worker.Timeout w <? Z.pos d
             then FromTimer (now + Worker.Timeout w)
             else if tie then FromDone (now + Z.pos d)
                  else FromTimer (now + Worker.Timeout w)
    end.
Proof.
  intros Hpos. unfold select. rewrite first_send_launch.
  unfold Timer.tick_at. cbn [Timer.C Timer.armed].
  rewrite Z.max_r by lia.
  destruct (run_time (Worker.Handler w now m)) as [d |]; cbn [option_map];
    [| reflexivity].
  replace (now + Worker.Timeout w <=? now) with false
    by (symmetry; apply Z.leb_gt; lia).
  replace (now + Z.pos d <? now + Worker.Timeout w)
    with (Z.pos d <? Worker.Timeout w)
    by (destruct (Z.ltb_spec (Z.pos d) (Worker.Timeout w));
        symmetry; [apply Z.ltb_lt | apply Z.ltb_ge]; lia).
  replace (now + Worker.Timeout w <? now + Z.pos d)
    with (Worker.Timeout w <? Z.pos d)
    by (destruct (Z.ltb_spec (Worker.Timeout w) (Z.pos d));
        symmetry; [apply Z.ltb_lt | apply Z.ltb_ge]; lia).
  reflexivity.
Qed.

(** A run of the handler longer than a positive timeout, on
    [handlerParams] of a consumer whose timer is live. *)
Lemma Exec_late (hp : handlerParams.t) (now : Z) (tie : bool)
                (m : option Message) :
  reachable w hp ->
  handlerParams.Timer hp <> spent ->
  0 < Worker.Timeout w ->
  exceeds (Worker.Timeout w) (Worker.Handler w now m) ->
  Exec w hp now tie m
  = Some ([], Some HandlerTimeout,
          {| handlerParams.Done := [launch w now m];
             handlerParams.Result := handlerParams.Result hp;
             handlerParams.Timer := spent |}).
Proof.
  intros Hreach Hlive Hpos Hlate.
  destruct (reachable_rested Hreach) as [[HD [due HT]] | Hspent];
    [| contradiction].
  rewrite (Exec_rested hp now tie m HD HT).
  rewrite (select_positive now tie m Hpos). unfold exceeds in Hlate.
  destruct (run_time (Worker.Handler w now m)) as [d |]; [| reflexivity].
  replace (Z.pos d <? Worker.Timeout w) with false
    by (symmetry; apply Z.ltb_ge; lia).
  replace (Worker.Timeout w <? Z.pos d) with true
    by (symmetry; apply Z.ltb_lt; lia).
  reflexivity.
Qed.

(** C2, as the code has it.  On [handlerParams] that a consumer can
    hold and whose timer is live (no earlier call of [Exec] on them
    ended in a timeout), with a positive timeout: when the run of the
    handler for a message takes longer than the timeout, [Exec] returns
    the [HandlerTimeout] error.  The handler's task is left pending on
    [Done] with its late result, and that result is returned by no
    later call: no later call of [Exec] on these [handlerParams]
    returns. *)
Theorem Exec_timeout :
  forall (hp : handlerParams.t) (now : Z) (tie : bool) (m : option Message),
    reachable w hp ->
    handlerParams.Timer hp <> spent ->
    0 < Worker.Timeout w ->
    exceeds (Worker.Timeout w) (Worker.Handler w now m) ->
    exists hp' : handlerParams.t,
      Exec w hp now tie m = Some ([], Some HandlerTimeout, hp')
      /\ handlerParams.Done hp' = [launch w now m]
      /\ forall now' tie' m', Exec w hp' now' tie' m' = None.
Proof.
  intros hp now tie m Hreach Hlive Hpos Hlate.
  rewrite (@Exec_late hp now tie m Hreach Hlive Hpos Hlate).
  eexists. split; [reflexivity |]. split; [reflexivity |].
  intros. apply Exec_spent. reflexivity.
Qed.

End ExecFacts.

Lemma Exec_timeout_witness :
  reachable Mock.worker (getHandlerParams Mock.worker 0)
  /\ handlerParams.Timer (getHandlerParams Mock.worker 0) <> spent
  /\ 0 < Worker.Timeout Mock.worker
  /\ exceeds (Worker.Timeout Mock.worker)
             (Worker.Handler Mock.worker 10 (Some (Mock.msg "slow" "T1")))
  /\ exists hp' : handlerParams.t,
       Exec Mock.worker (getHandlerParams Mock.worker 0) 10 true
            (Some (Mock.msg "slow" "T1"))
       = Some ([], Some HandlerTimeout, hp')
       /\ handlerParams.Done hp'
          = [launch Mock.worker 10 (Some (Mock.msg "slow" "T1"))]
       /\ forall now' tie' m', Exec Mock.worker hp' now' tie' m' = None.
Proof.
  split; [apply reach_new |].
  split; [discriminate |].
  split; [reflexivity |].
  split; [vm_compute; reflexivity |].
  apply (@Exec_timeout nat Mock.worker (getHandlerParams Mock.worker 0) 10
           true (Some (Mock.msg "slow" "T1"))).
  - apply reach_new.
  - discriminate.
  - reflexivity.
  - vm_compute; reflexivity.
Defined.

(** C2 as stated fails in two ways.  With a timeout of -1s every run of
    the handler exceeds the timeout, and yet [Exec] returns the
    handler's result when its select finds the handler's send beside
    the tick and takes it.  And with a timeout of 1s, for the message
    that follows a timeout [Exec] returns nothing at all, although the
    handler would take 2s on it. *)
Lemma Exec_timeout_fails :
  (let w := NewWorker 4 None (Mock.config "out" (-1)) in
   let m := Some (Mock.msg "a" "T1") in
   reachable w (getHandlerParams w 0)
   /\ Worker.Timeout w = -1000000000
   /\ exceeds (Worker.Timeout w) (Worker.Handler w 10 m)
   /\ exists hp' : handlerParams.t,
        Exec w (getHandlerParams w 0) 10 true m
        = Some (list_byte_of_string "a", None, hp'))
  /\ (let w := Mock.worker in
      exists hp' : handlerParams.t,
        Exec w (getHandlerParams w 0) 10 true (Some (Mock.msg "slow" "T1"))
        = Some ([], Some HandlerTimeout, hp')
        /\ reachable w hp'
        /\ exceeds (Worker.Timeout w)
                   (Worker.Handler w 20 (Some (Mock.msg "slow" "T2")))
        /\ Exec w hp' 20 true (Some (Mock.msg "slow" "T2")) = None).
Proof.
  split.
  - split; [apply reach_new |]. split; [reflexivity |].
    split; [vm_compute; reflexivity |].
    eexists. vm_compute. reflexivity.
  - eexists. split; [vm_compute; reflexivity |].
    split; [| split; [vm_compute; reflexivity | reflexivity]].
    eapply reach_Exec with (hp := getHandlerParams Mock.worker 0) (now := 10)
                           (tie := true)
                           (m := Some (Mock.msg "slow" "T1"));
      [apply reach_new | vm_compute; reflexivity].
Qed.

(** ** consumer *)

Lemma cons_eq_inv (A : Type) (a b : A) (l l' : list A) :
  a :: l = b :: l' -> a = b /\ l = l'.
Proof. intros H. injection H as Ha Hl. split; assumption. Qed.

(** Case analysis on where an event sits in a short trace. *)
Ltac locate H :=
  repeat match type of H with
         | ?pre ++ _ :: _ = _ =>
             is_var pre; destruct pre; simpl in H
         | _ :: _ = _ :: _ =>
             let E := fresh "E" in
             apply cons_eq_inv in H; destruct H as [E H];
             inversion E; subst; try clear E
         | _ :: _ = [] => discriminate H
         | [] = _ :: _ => discriminate H
         | _ ++ _ :: _ = [] => destruct (app_cons_not_nil _ _ _ (eq_sym H))
         end.

Section CallbackFacts.

Variables Q U : Type.

Lemma callback_run (w : Worker.t U) (result : list byte) (err : error)
                   (s : World Q U) :
  callback w result err s
  = (written w result err s, called_back w result err s,
     callback_events w result err).
Proof.
  unfold written, callback, called_back, callback_events.
  destruct (Worker.Callback w) as [cb |]; [| reflexivity].
  destruct (cb result err (user s)); reflexivity.
Qed.

Lemma LogError_run (w : Worker.t U) (msg : string) (e : GoError)
                   (s : World Q U) :
  LogError w msg e s = (tt, s, logged w msg e).
Proof. reflexivity. Qed.

Lemma queue_called_back (w : Worker.t U) (result : list byte) (err : error)
                        (s : World Q U) :
  queue (called_back w result err s) = queue s.
Proof. unfold called_back. destruct (Worker.Callback w); reflexivity. Qed.

(** A callback that writes nothing leaves the result as [Exec] returned
    it. *)
Lemma written_reads_only (w : Worker.t U) (result : list byte) (err : error)
                         (s : World Q U) :
  reads_only (Worker.Callback w) -> written w result err s = result.
Proof.
  unfold reads_only, written, callback.
  destruct (Worker.Callback w) as [cb |]; [| reflexivity].
  intros H. specialize (H result err (user s)).
  destruct (cb result err (user s)). exact H.
Qed.

(** Whatever the callback writes, the slice keeps its length. *)
Lemma written_length (w : Worker.t U) (result : list byte) (err : error)
                     (s : World Q U) :
  List.length (written w result err s) = List.length result.
Proof.
  unfold written, callback.
  destruct (Worker.Callback w) as [cb |]; [| reflexivity].
  destruct (cb result err (user s)) as [new u]. simpl.
  revert new. induction result as [| b result IH]; intros [| n new]; simpl;
    try reflexivity.
  f_equal. apply IH.
Qed.

End CallbackFacts.

Arguments callback_run {Q U} w result err s.
Arguments LogError_run {Q U} w msg e s.
Arguments queue_called_back {Q U} w result err s.
Arguments written_reads_only {Q U} w result err s _.
Arguments written_length {Q U} w result err s.

Section ConsumerFacts.

Variables Q U : Type.
Context {sqs : SQSAPI Q}.
Variable w : Worker.t U.

(** [handled] is the callback followed by the rest. *)
Lemma handled_run (st : locals) (msg : option Message) (result : list byte)
                  (err : error) (s : World Q U) :
  handled w st msg result err s
  = (let '(r, s1, tr) :=
       forward_and_acknowledge w st msg (written w result err s) err
                               (called_back w result err s) in
     (r, s1, callback_events w result err ++ tr)).
Proof. unfold handled, bind. rewrite callback_run. reflexivity. Qed.

Lemma handled_failed (st : locals) (msg : option Message)
                     (result : list byte) (e : GoError) (s : World Q U) :
  handled w st msg result (Some e) s
  = (inr st, called_back w result (Some e) s,
     callback_events w result (Some e) ++ logged w "handler failed!" e).
Proof.
  rewrite handled_run. unfold forward_and_acknowledge, bind.
  rewrite LogError_run. simpl. rewrite app_nil_r. reflexivity.
Qed.

Lemma consumer_loop_Recv (st st1 : locals) (now : Z) (tie : bool)
      (msg : option Message) (rest : list received) (s s1 : World Q U)
      (result : list byte) (err : error) (hp : handlerParams.t)
      (tr : list Event) :
  Exec w (hanlderInput st) now tie msg = Some (result, err, hp) ->
  handled w (with_handlerParams st hp) msg result err s = (inr st1, s1, tr) ->
  consumer_loop w st (Recv now tie msg :: rest) s
  = delivered {| d_msg := msg; d_result := result; d_err := err;
                 d_left := written w result err s; d_events := tr |}
              (consumer_loop w st1 rest s1).
Proof.
  intros HE HH. simpl. rewrite HE, HH.
  destruct (consumer_loop w st1 rest s1) as [[status s2] ds]. reflexivity.
Qed.

(** C1. For a message whose handler returned no error, the consumer
    forwards before it acknowledges: a [DeleteMessage] in the events of
    that delivery bears the message's receipt handle, comes after a
    [SendMessage] that succeeded (or the worker has no out queue and
    forwarding is a no-op), and no [SendMessage] comes after it; with
    an out queue, [SendMessage] is called.  What is sent is the
    handler's result as the callback left it: the handler's result
    itself when there is no callback or the callback writes nothing. *)
Theorem forward_before_acknowledge :
  forall (st : locals) (now : Z) (tie : bool) (msg : Message)
         (rest : list received) (s : World Q U) (result : list byte)
         (hp : handlerParams.t),
    Exec w (hanlderInput st) now tie (Some msg) = Some (result, None, hp) ->
    exists (st1 : locals) (s1 : World Q U) (tr : list Event),
      consumer_loop w st (Recv now tie (Some msg) :: rest) s
      = delivered {| d_msg := Some msg; d_result := result; d_err := None;
                     d_left := written w result None s; d_events := tr |}
                  (consumer_loop w st1 rest s1)
      /\ forwarded_before_acknowledged w msg (written w result None s) tr
      /\ (reads_only (Worker.Callback w) -> written w result None s = result).
Proof.
  intros st now tie msg rest s result hp HE.
  assert (HH : exists st1 s1 tr,
             handled w (with_handlerParams st hp) (Some msg) result None s
             = (inr st1, s1, tr)
             /\ forwarded_before_acknowledged w msg
                  (written w result None s) tr).
  { rewrite handled_run.
    generalize (written w result None s) as data.
    generalize (called_back w result None s) as s0.
    intros s0 data.
    unfold forwarded_before_acknowledged.
    unfold forward_and_acknowledge, bind, sendMessage, deleteMessage, ret.
    unfold callback_events.
    destruct (String.eqb_spec (Worker.QueueOutUrl w) "") as [Hout | Hout].
    - (* no out queue: forwarding is a no-op *)
      simpl.
      destruct (DeleteMessage _ _) as [[e |] q2];
        rewrite ?LogError_run; unfold logged;
        destruct (Worker.Callback w), (Worker.Logger w); simpl;
        do 3 eexists; (split; [reflexivity |]);
        (split; [| intros Hne; contradiction]);
        intros pre input err post H; symmetry in H; locate H;
        (split; [reflexivity |]); (split; [left; assumption |]);
        simpl; intros ? ? F; intuition discriminate.
    - destruct (SendMessage _ _) as [[e |] q1]; simpl.
      + (* forwarding failed: nothing is acknowledged *)
        rewrite ?LogError_run; unfold logged.
        destruct (Worker.Callback w), (Worker.Logger w); simpl;
          do 3 eexists; (split; [reflexivity |]);
          (split; [intros pre input err post H; symmetry in H; locate H
                  | intros _; do 2 eexists; simpl;
                    split; [intuition eauto | reflexivity]]).
      + destruct (DeleteMessage _ _) as [[e |] q2];
          rewrite ?LogError_run; unfold logged;
          destruct (Worker.Callback w), (Worker.Logger w); simpl;
          do 3 eexists; (split; [reflexivity |]);
          (split;
           [ intros pre input err post H; symmetry in H; locate H;
             (split; [reflexivity |]);
             (split; [right; eexists; simpl; split;
                      [intuition eauto | reflexivity] |]);
             simpl; intros ? ? F; intuition discriminate
           | intros _; do 2 eexists; simpl;
             split; [intuition eauto | reflexivity]]). }
  destruct HH as [st1 [s1 [tr [HH Hfwd]]]].
  exists st1, s1, tr.
  split; [eapply consumer_loop_Recv; eassumption |].
  split; [exact Hfwd | apply written_reads_only].
Qed.

(** C3. When the handler returns an error for a message, a timeout
    included, the consumer calls the callback if there is one, logs the
    error and goes on with the rest of its loop; it makes no call to the
    queue: no [DeleteMessage] for the message. *)
Theorem handler_error_not_acknowledged :
  forall (st : locals) (now : Z) (tie : bool) (msg : option Message)
         (rest : list received) (s : World Q U) (result : list byte)
         (e : GoError) (hp : handlerParams.t),
    Exec w (hanlderInput st) now tie msg = Some (result, Some e, hp) ->
    let tr := callback_events w result (Some e)
              ++ logged w "handler failed!" e in
    let s1 := called_back w result (Some e) s in
    consumer_loop w st (Recv now tie msg :: rest) s
    = delivered {| d_msg := msg; d_result := result; d_err := Some e;
                   d_left := written w result (Some e) s;
                   d_events := tr |}
                (consumer_loop w (with_handlerParams st hp) rest s1)
    /\ queue s1 = queue s
    /\ no_DeleteMessage tr.
Proof.
  intros st now tie msg rest s result e hp HE tr s1.
  split; [| split].
  - eapply consumer_loop_Recv; [eassumption | apply handled_failed].
  - apply queue_called_back.
  - subst tr. unfold no_DeleteMessage, callback_events, logged.
    intros input err.
    destruct (Worker.Callback w), (Worker.Logger w); simpl;
      intuition discriminate.
Qed.

(** C4. When the handler succeeded and forwarding its result fails, the
    consumer logs the error and goes on with the rest of its loop
    without a [DeleteMessage] for the message.  (The result forwarded
    is the handler's, as the callback left it.) *)
Theorem forward_error_not_acknowledged :
  forall (st : locals) (now : Z) (tie : bool) (msg : option Message)
         (rest : list received) (s s1 : World Q U) (result : list byte)
         (hp : handlerParams.t) (e : GoError) (sent : list Event),
    Exec w (hanlderInput st) now tie msg = Some (result, None, hp) ->
    let send := {| send_QueueUrl := send_QueueUrl (sendInput st);
                   MessageBody :=
                     Some (string_of_list_byte (written w result None s)) |} in
    sendMessage w send (called_back w result None s) = (Some e, s1, sent) ->
    let tr := callback_events w result None
              ++ sent ++ logged w "send message failed!" e in
    exists st1 : locals,
      consumer_loop w st (Recv now tie msg :: rest) s
      = delivered {| d_msg := msg; d_result := result; d_err := None;
                     d_left := written w result None s; d_events := tr |}
                  (consumer_loop w st1 rest s1)
      /\ hanlderInput st1 = hp
      /\ sent = [EvSendMessage send (Some e)]
      /\ no_DeleteMessage tr
      /\ (reads_only (Worker.Callback w) -> written w result None s = result).
Proof.
  intros st now tie msg rest s s1 result hp e sent HE send HS tr.
  eexists. split; [| split; [| split; [| split]]].
  - eapply consumer_loop_Recv; [eassumption |].
    rewrite handled_run. unfold forward_and_acknowledge, bind.
    cbn [sendInput with_handlerParams]. fold send. rewrite HS.
    rewrite LogError_run. cbn [ret]. subst tr.
    rewrite app_nil_r. reflexivity.
  - reflexivity.
  - revert HS. unfold sendMessage, ret.
    destruct (String.eqb (Worker.QueueOutUrl w) ""); [discriminate |].
    destruct (SendMessage _ _) as [err q1].
    intros HS; inversion HS; subst. reflexivity.
  - assert (Hsent : sent = [EvSendMessage send (Some e)]).
    { revert HS. unfold sendMessage, ret.
      destruct (String.eqb (Worker.QueueOutUrl w) ""); [discriminate |].
      destruct (SendMessage _ _) as [err q1].
      intros HS; inversion HS; subst. reflexivity. }
    subst tr. rewrite Hsent.
    unfold no_DeleteMessage, callback_events, logged.
    intros input err.
    destruct (Worker.Callback w), (Worker.Logger w); simpl;
      intuition discriminate.
  - apply written_reads_only.
Qed.

(** The rest of [handled] calls no callback. *)
Lemma forward_and_acknowledge_quiet (st : locals) (msg : option Message)
      (data : list byte) (err : error) (s : World Q U) :
  filter is_Callback (snd (forward_and_acknowledge w st msg data err s)) = [].
Proof.
  unfold forward_and_acknowledge, bind, sendMessage, deleteMessage,
         LogError, ret.
  destruct err as [e |].
  - destruct (Worker.Logger w); reflexivity.
  - destruct (String.eqb (Worker.QueueOutUrl w) "");
      [| destruct (SendMessage _ _) as [[e |] q1] ]; simpl;
      try (destruct msg as [msg |]; simpl);
      try (destruct (DeleteMessage _ _) as [[e' |] q2]);
      destruct (Worker.Logger w); reflexivity.
Qed.

Lemma handled_callbacks (st : locals) (msg : option Message)
      (result : list byte) (err : error) (s s1 : World Q U)
      (r : panic + locals) (tr : list Event) :
  handled w st msg result err s = (r, s1, tr) ->
  filter is_Callback tr = callback_events w result err.
Proof.
  rewrite handled_run.
  pose proof (forward_and_acknowledge_quiet st msg
                (written w result err s) err (called_back w result err s))
    as Hq.
  destruct (forward_and_acknowledge w st msg _ err _) as [[r0 s0] tr0].
  simpl in Hq. intros H; inversion H; subst.
  rewrite filter_app, Hq, app_nil_r.
  unfold callback_events. destruct (Worker.Callback w); reflexivity.
Qed.

(** The rest of [handled] does not look at the callback, nor at the
    state of the application. *)
Lemma forward_and_acknowledge_flow (c : option (Callback U)) (st : locals)
      (msg : option Message) (data : list byte) (err : error)
      (s s' : World Q U) :
  queue s' = queue s ->
  let '(r1, s1, tr1) := forward_and_acknowledge w st msg data err s in
  let '(r2, s2, tr2) :=
    forward_and_acknowledge (with_Callback w c) st msg data err s' in
  r2 = r1 /\ queue s2 = queue s1 /\ tr2 = tr1.
Proof.
  intros Hq.
  unfold forward_and_acknowledge, bind, sendMessage, deleteMessage,
         LogError, ret.
  cbn [with_Callback Worker.Callback Worker.Logger Worker.QueueOutUrl
       Worker.Name].
  destruct err as [e |].
  - destruct (Worker.Logger w); simpl; auto.
  - destruct (String.eqb (Worker.QueueOutUrl w) ""); simpl; rewrite ?Hq.
    + destruct msg as [msg |]; simpl; rewrite ?Hq; auto.
      destruct (DeleteMessage _ _) as [[e' |] q2];
        destruct (Worker.Logger w); simpl; auto.
    + destruct (SendMessage _ _) as [[e |] q1]; simpl.
      * destruct (Worker.Logger w); simpl; auto.
      * destruct msg as [msg |]; simpl; auto.
        destruct (DeleteMessage _ _) as [[e' |] q2];
          destruct (Worker.Logger w); simpl; auto.
Qed.

(** What [handled] does to the queue and to the consumer's variables
    does not depend on a callback that writes nothing, nor on what such
    a callback did. *)
Lemma handled_flow (c : option (Callback U)) (st : locals)
      (r1 r2 : panic + locals)
      (msg : option Message) (result : list byte) (err : error)
      (s s' s1 s2 : World Q U) (tr1 tr2 : list Event) :
  reads_only (Worker.Callback w) ->
  reads_only c ->
  queue s' = queue s ->
  handled w st msg result err s = (r1, s1, tr1) ->
  handled (with_Callback w c) st msg result err s' = (r2, s2, tr2) ->
  r2 = r1 /\ queue s2 = queue s1
  /\ filter (fun e => negb (is_Callback e)) tr2
     = filter (fun e => negb (is_Callback e)) tr1.
Proof.
  intros Hw Hc Hq.
  assert (Hc' : reads_only (Worker.Callback (with_Callback w c)))
    by exact Hc.
  unfold handled, bind.
  rewrite (callback_run w), (callback_run (with_Callback w c)).
  rewrite (written_reads_only w _ _ _ Hw).
  rewrite (written_reads_only (with_Callback w c) _ _ _ Hc').
  assert (Hq' : queue (called_back (with_Callback w c) result err s')
                = queue (called_back w result err s)).
  { unfold called_back. cbn [with_Callback Worker.Callback].
    destruct (Worker.Callback w), c; simpl; assumption. }
  pose proof (forward_and_acknowledge_flow c st msg result err _ _ Hq')
    as Hflow.
  pose proof (forward_and_acknowledge_quiet st msg result err
                (called_back w result err s)) as Hq1.
  destruct (forward_and_acknowledge w st msg result err
              (called_back w result err s)) as [[r0 s0] tr0].
  destruct (forward_and_acknowledge (with_Callback w c) st msg result err
              (called_back (with_Callback w c) result err s'))
    as [[r0' s0'] tr0'].
  destruct Hflow as [Hr [Hqq Htr]]. subst r0' tr0'.
  intros H1 H2; inversion H1; inversion H2; subst.
  split; [reflexivity |]. split; [assumption |].
  rewrite !filter_app. f_equal.
  unfold callback_events. cbn [with_Callback Worker.Callback].
  destruct (Worker.Callback w), c; reflexivity.
Qed.

Lemma consumer_loop_callbacks (script : list received) :
  forall (st : locals) (s : World Q U),
    Forall (fun d => filter is_Callback (d_events d)
                     = callback_events w (d_result d) (d_err d))
           (snd (consumer_loop w st script s)).
Proof.
  induction script as [| r script IH]; intros st s; simpl.
  - constructor.
  - destruct r as [| now tie msg]; [constructor |].
    destruct (Exec w (hanlderInput st) now tie msg)
      as [[[result err] hp] |]; [| constructor].
    destruct (handled w (with_handlerParams st hp) msg result err s)
      as [[r1 s1] tr] eqn:HH.
    pose proof (handled_callbacks _ _ _ _ _ HH) as Hcb.
    destruct r1 as [p | st1].
    + simpl. constructor; [exact Hcb | constructor].
    + specialize (IH st1 s1).
      destruct (consumer_loop w st1 script s1) as [[status s2] ds].
      simpl in *. constructor; assumption.
Qed.

Lemma consumer_loop_flow (c : option (Callback U)) (script : list received) :
  reads_only (Worker.Callback w) ->
  reads_only c ->
  forall (st : locals) (s s' : World Q U),
    queue s' = queue s ->
    flow (consumer_loop (with_Callback w c) st script s')
    = flow (consumer_loop w st script s).
Proof.
  intros Hw Hc.
  assert (Hc' : reads_only (Worker.Callback (with_Callback w c)))
    by exact Hc.
  induction script as [| r script IH]; intros st s s' Hq; simpl.
  - rewrite Hq. reflexivity.
  - destruct r as [| now tie msg]; [simpl; rewrite Hq; reflexivity |].
    change (Exec (with_Callback w c) (hanlderInput st) now tie msg)
      with (Exec w (hanlderInput st) now tie msg).
    destruct (Exec w (hanlderInput st) now tie msg)
      as [[[result err] hp] |]; [| simpl; rewrite Hq; reflexivity].
    rewrite (written_reads_only w _ _ _ Hw).
    rewrite (written_reads_only (with_Callback w c) _ _ _ Hc').
    destruct (handled w (with_handlerParams st hp) msg result err s)
      as [[r1 s1] tr1] eqn:H1.
    destruct (handled (with_Callback w c) (with_handlerParams st hp)
                      msg result err s')
      as [[r2 s2] tr2] eqn:H2.
    destruct (@handled_flow c _ _ _ _ _ _ _ _ _ _ _ _ Hw Hc Hq H1 H2)
      as [Hst [Hq' Htr]].
    subst r2. destruct r1 as [p | st1].
    + unfold flow. simpl. unfold without_callbacks. simpl.
      rewrite Hq', Htr. reflexivity.
    + specialize (IH st1 s1 s2 Hq').
      destruct (consumer_loop w st1 script s1) as [[status ws] ds].
      destruct (consumer_loop (with_Callback w c) st1 script s2)
        as [[status' ws'] ds'].
      unfold flow in *. simpl. inversion IH; subst.
      unfold without_callbacks at 1 3. simpl. rewrite Htr. reflexivity.
Qed.

(** C8, as the code has it.  In every delivery of a run of the consumer
    the callback, when there is one, is called exactly once, with what
    [Exec] returned for that message, whether an outcome of the handler
    or the timeout.  And a callback that does not write into the result
    it is handed (and returns, as callbacks are taken to do) is an
    observer only: the run does the same with any other such callback,
    or with none: it stops at the same point, leaves the queue in the
    same state and makes the same calls. *)
Theorem callback_observes_only :
  forall (now : Z) (script : list received) (s : World Q U),
    Forall (fun d => filter is_Callback (d_events d)
                     = match Worker.Callback w with
                       | Some _ => [EvCallback (d_result d) (d_err d)]
                       | None => []
                       end)
           (snd (consumer w now script s))
    /\ forall c : option (Callback U),
         reads_only (Worker.Callback w) ->
         reads_only c ->
         flow (consumer (with_Callback w c) now script s)
         = flow (consumer w now script s).
Proof.
  intros now script s. split.
  - apply consumer_loop_callbacks.
  - intros c Hw Hc. unfold consumer.
    change (consumer_locals (with_Callback w c) now)
      with (consumer_locals w now).
    apply consumer_loop_flow; [assumption | assumption | reflexivity].
Qed.

End ConsumerFacts.

(** ** producer *)

Section ProducerFacts.

Variables Q U : Type.
Context {sqs : SQSAPI Q}.
Variable w : Worker.t U.

Lemma push_run (messages : list Message) :
  forall (room : nat) (s : World Q U),
    push messages room s
    = (nth_error messages room, s, map EvPush (firstn room messages)).
Proof.
  induction messages as [| m rest IH]; intros room s.
  - destruct room; reflexivity.
  - destruct room as [| room]; [reflexivity |].
    simpl. unfold bind. rewrite IH. reflexivity.
Qed.

Lemma poll_run (room : nat) (s : World Q U) (messages : list Message)
               (err : error) (q1 : Q) :
  ReceiveMessage (receive_params w) (queue s) = ((messages, err), q1) ->
  poll w room s
  = (match err with
     | Some _ => None
     | None => nth_error messages room
     end,
     {| queue := q1; user := user s |},
     EvReceiveMessage (receive_params w) messages err
     :: match err with
        | Some e => logged w "recieve messages failed!" e
        | None => map EvPush (firstn room messages)
        end).
Proof.
  intros HR. unfold poll, bind, receive. rewrite HR. simpl.
  destruct err as [e |].
  - unfold LogError, logged, ret. simpl. rewrite app_nil_r. reflexivity.
  - rewrite push_run. reflexivity.
Qed.

Lemma producer_returned (script : list turn) :
  forall s : World Q U,
    fst (fst (producer w script s)) = ProducerReturned ->
    exists pre t post,
      script = pre ++ t :: post
      /\ ctx_done t = true
      /\ Forall (fun t => ctx_done t = false) pre.
Proof.
  induction script as [| t script IH]; intros s; simpl.
  - discriminate.
  - destruct (ctx_done t) eqn:Hdone.
    + intros _. exists [], t, script. repeat split; auto.
    + destruct (poll w (out_room t) s) as [[parked s1] tr].
      destruct parked as [m |]; [simpl; discriminate |].
      specialize (IH s1).
      destruct (producer w script s1) as [[status s2] trs]. simpl in *.
      intros Hret. destruct (IH Hret) as [pre [t' [post [Hs [Ht Hpre]]]]].
      exists (t :: pre), t', post. subst script.
      repeat split; auto.
Qed.

(** C7. The producer returns only when a turn of its loop finds the
    context cancelled; and a turn whose fetch fails logs the error and
    is followed by the rest of the loop. *)
Theorem fetch_error_not_fatal :
  forall (script : list turn) (s : World Q U),
    (fst (fst (producer w script s)) = ProducerReturned ->
     exists pre t post,
       script = pre ++ t :: post
       /\ ctx_done t = true
       /\ Forall (fun t => ctx_done t = false) pre)
    /\ forall (t : turn) (messages : list Message) (e : GoError) (q1 : Q),
         ctx_done t = false ->
         ReceiveMessage (receive_params w) (queue s)
         = ((messages, Some e), q1) ->
         producer w (t :: script) s
         = polled (EvReceiveMessage (receive_params w) messages (Some e)
                   :: logged w "recieve messages failed!" e)
                  (producer w script {| queue := q1; user := user s |}).
Proof.
  intros script s. split; [apply producer_returned |].
  intros t messages e q1 Hdone HR. simpl. rewrite Hdone.
  rewrite (poll_run _ _ HR).
  destruct (producer w script _) as [[status s2] trs]. reflexivity.
Qed.

Lemma pushed_app (tr1 tr2 : list Event) :
  pushed (tr1 ++ tr2) = pushed tr1 ++ pushed tr2.
Proof.
  induction tr1 as [| e tr1 IH]; [reflexivity |].
  destruct e; simpl; rewrite IH; reflexivity.
Qed.

Lemma fetched_app (tr1 tr2 : list Event) :
  fetched (tr1 ++ tr2) = fetched tr1 ++ fetched tr2.
Proof.
  induction tr1 as [| e tr1 IH]; [reflexivity |].
  destruct e as [| | | | | input messages [err |] |]; simpl; rewrite IH;
    try reflexivity.
  apply app_assoc.
Qed.

Lemma pushed_pushes (messages : list Message) :
  pushed (map EvPush messages) = messages
  /\ fetched (map EvPush messages) = [].
Proof.
  induction messages as [| m ms [IH1 IH2]]; [split; reflexivity |].
  simpl. rewrite IH1, IH2. split; reflexivity.
Qed.

Lemma pushed_logged (msg : string) (e : GoError) :
  pushed (logged w msg e) = [] /\ fetched (logged w msg e) = [].
Proof. unfold logged. destruct (Worker.Logger w); split; reflexivity. Qed.

Lemma nth_error_split (A : Type) (l : list A) :
  forall (n : nat) (a : A),
    nth_error l n = Some a -> l = firstn n l ++ a :: skipn (S n) l.
Proof.
  induction l as [| x l IH]; intros [| n] a H; try discriminate.
  - injection H as ->. reflexivity.
  - simpl in H. simpl. f_equal. apply IH. assumption.
Qed.

Lemma nth_error_all (A : Type) (l : list A) :
  forall n : nat, nth_error l n = None -> firstn n l = l.
Proof.
  induction l as [| x l IH]; intros [| n] H; try reflexivity;
    try discriminate.
  simpl in *. f_equal. apply IH. assumption.
Qed.

(** What a polling turn records, and what it pushes. *)
Lemma turn_pushed (messages : list Message) (err : error) (room : nat) :
  pushed (EvReceiveMessage (receive_params w) messages err
          :: match err with
             | Some e => logged w "recieve messages failed!" e
             | None => map EvPush (firstn room messages)
             end)
  = match err with
    | Some _ => []
    | None => firstn room messages
    end.
Proof.
  simpl. destruct err as [e |].
  - apply pushed_logged.
  - apply pushed_pushes.
Qed.

(** C10, as the code has it.  Every turn of the producer that polls
    makes one request, for at most [MaxNumberOfMessages = 1] message,
    with a visibility timeout of 60s and a wait of 20s, whatever the
    worker's configuration.  After a response without an error it
    pushes the messages of the response, as many as there are and in
    their order: all of them, unless a send parks (then the turn is the
    last of the run); after an error it pushes none. *)
Theorem fetch_pushes_the_response :
  forall (script : list turn) (s : World Q U)
         (pre post : list (list Event)) (tr : list Event),
    snd (producer w script s) = pre ++ tr :: post ->
    exists (messages : list Message) (err : error) (rest : list Event),
      tr = EvReceiveMessage (receive_params w) messages err :: rest
      /\ receive_MaxNumberOfMessages (receive_params w) = 1
      /\ receive_VisibilityTimeout (receive_params w) = 60
      /\ receive_WaitTimeSeconds (receive_params w) = 20
      /\ (forall p ms e, ~ In (EvReceiveMessage p ms e) rest)
      /\ (exists n : nat,
             pushed tr = match err with
                         | Some _ => []
                         | None => firstn n messages
                         end)
      /\ (err = None ->
          post <> []
          \/ (forall m, fst (fst (producer w script s)) <> ProducerParked m) ->
          pushed tr = messages).
Proof.
  induction script as [| t script IH]; intros s pre post tr; simpl.
  - intros H. destruct pre; discriminate.
  - destruct (ctx_done t); [simpl; intros H; destruct pre; discriminate |].
    destruct (ReceiveMessage (receive_params w) (queue s))
      as [[messages err] q1] eqn:HR.
    rewrite (poll_run _ _ HR).
    pose proof (turn_pushed messages err (out_room t)) as Hpushed.
    set (tr0 := EvReceiveMessage (receive_params w) messages err
                :: match err with
                   | Some e => logged w "recieve messages failed!" e
                   | None => map EvPush (firstn (out_room t) messages)
                   end) in *.
    assert (Hrest : forall p ms e,
               ~ In (EvReceiveMessage p ms e)
                    match err with
                    | Some e => logged w "recieve messages failed!" e
                    | None => map EvPush (firstn (out_room t) messages)
                    end).
    { intros p ms e. destruct err as [e' |].
      - unfold logged. destruct (Worker.Logger w); simpl;
          intuition discriminate.
      - intros Hin. apply in_map_iff in Hin.
        destruct Hin as [m [Hm _]]. discriminate. }
    destruct (match err with
              | Some _ => None
              | None => nth_error messages (out_room t)
              end) as [m |] eqn:Hpark.
    + (* a send parks: the turn is the last *)
      simpl. intros H.
      destruct pre as [| x pre];
        [injection H as <- <- | destruct pre; discriminate].
      exists messages, err. eexists. split; [reflexivity |].
      do 3 (split; [reflexivity |]). split; [exact Hrest |].
      split; [exists (out_room t); exact Hpushed |].
      intros _ [Hpost | Hst]; [contradiction |].
      destruct (Hst m eq_refl).
    + destruct (producer w script {| queue := q1; user := user s |})
        as [[status s2] trs] eqn:HP. simpl.
      intros H. destruct pre as [| x pre].
      * injection H as <- <-.
        exists messages, err. eexists. split; [reflexivity |].
        do 3 (split; [reflexivity |]). split; [exact Hrest |].
        split; [exists (out_room t); exact Hpushed |].
        intros -> _. rewrite Hpushed. apply nth_error_all. exact Hpark.
      * injection H as _ H.
        specialize (IH {| queue := q1; user := user s |} pre post tr).
        rewrite HP in IH. simpl in IH. apply IH. exact H.
Qed.

End ProducerFacts.

(** ** The properties on the sample worker *)

Lemma forward_before_acknowledge_witness :
  (exists hp : handlerParams.t,
      Exec Mock.worker (hanlderInput (consumer_locals Mock.worker 0))
           10 true (Some (Mock.msg "a" "T1"))
      = Some (list_byte_of_string "a", None, hp))
  /\ exists (st1 : locals) (s1 : World Mock.t nat) (tr : list Event),
       consumer_loop (sqs := Mock.sqs) Mock.worker
                     (consumer_locals Mock.worker 0)
                     [Recv 10 true (Some (Mock.msg "a" "T1"))] Mock.world
       = delivered {| d_msg := Some (Mock.msg "a" "T1");
                      d_result := list_byte_of_string "a";
                      d_err := None;
                      d_left := list_byte_of_string "a";
                      d_events := tr |}
                   (consumer_loop (sqs := Mock.sqs) Mock.worker st1 [] s1)
       /\ forwarded_before_acknowledged Mock.worker (Mock.msg "a" "T1")
                                        (list_byte_of_string "a") tr.
Proof.
  split; [eexists; reflexivity |].
  destruct (@forward_before_acknowledge Mock.t nat Mock.sqs Mock.worker
              (consumer_locals Mock.worker 0) 10 true (Mock.msg "a" "T1")
              [] Mock.world (list_byte_of_string "a") _ eq_refl)
    as [st1 [s1 [tr [Hrun [Hfwd _]]]]].
  exists st1, s1, tr. split; [exact Hrun | exact Hfwd].
Defined.

Lemma handler_error_not_acknowledged_witness :
  (exists hp : handlerParams.t,
      Exec Mock.worker (hanlderInput (consumer_locals Mock.worker 0))
           10 true (Some (Mock.msg "bad" "T1"))
      = Some (list_byte_of_string "bad", Some (OtherError "bad"), hp))
  /\ exists st1 : locals,
       consumer_loop (sqs := Mock.sqs) Mock.worker
                     (consumer_locals Mock.worker 0)
                     [Recv 10 true (Some (Mock.msg "bad" "T1"))] Mock.world
       = (Selecting st1,
          {| queue := queue Mock.world; user := 1%nat |},
          [{| d_msg := Some (Mock.msg "bad" "T1");
              d_result := list_byte_of_string "bad";
              d_err := Some (OtherError "bad");
              d_left := list_byte_of_string "bad";
              d_events :=
                [EvCallback (list_byte_of_string "bad")
                            (Some (OtherError "bad"));
                 EvLogError "bad" "TestApp" "handler failed!"
                            (OtherError "bad")] |}]).
Proof.
  split; [eexists; reflexivity |].
  eexists.
  exact (proj1 (@handler_error_not_acknowledged Mock.t nat Mock.sqs
                  Mock.worker (consumer_locals Mock.worker 0) 10 true
                  (Some (Mock.msg "bad" "T1")) [] Mock.world
                  (list_byte_of_string "bad") (OtherError "bad") _
                  eq_refl)).
Defined.

Lemma forward_error_not_acknowledged_witness :
  (exists hp : handlerParams.t,
      Exec Mock.worker (hanlderInput (consumer_locals Mock.worker 0))
           10 true (Some (Mock.msg "x" "T2"))
      = Some (list_byte_of_string "x", None, hp))
  /\ (exists (s1 : World Mock.t nat) (sent : list Event),
         sendMessage (sqs := Mock.sqs) Mock.worker
                     {| send_QueueUrl := "out"; MessageBody := Some "x" |}
                     (called_back Mock.worker (list_byte_of_string "x")
                                  None Mock.world)
         = (Some (OtherError "rejected"), s1, sent))
  /\ exists (st1 : locals) (s1 : World Mock.t nat) (tr : list Event),
       consumer_loop (sqs := Mock.sqs) Mock.worker
                     (consumer_locals Mock.worker 0)
                     [Recv 10 true (Some (Mock.msg "x" "T2"))] Mock.world
       = delivered {| d_msg := Some (Mock.msg "x" "T2");
                      d_result := list_byte_of_string "x";
                      d_err := None;
                      d_left := list_byte_of_string "x";
                      d_events := tr |}
                   (consumer_loop (sqs := Mock.sqs) Mock.worker st1 [] s1)
       /\ no_DeleteMessage tr.
Proof.
  split; [eexists; reflexivity |].
  split; [do 2 eexists; reflexivity |].
  destruct (@forward_error_not_acknowledged Mock.t nat Mock.sqs Mock.worker
              (consumer_locals Mock.worker 0) 10 true
              (Some (Mock.msg "x" "T2"))
              [] Mock.world _ (list_byte_of_string "x") _
              (OtherError "rejected") _ eq_refl eq_refl)
    as [st1 [Hrun [_ [_ [Hno _]]]]].
  do 3 eexists. split; [exact Hrun | exact Hno].
Defined.

Lemma callback_observes_only_witness :
  reads_only (Worker.Callback Mock.worker)
  /\ reads_only (U := nat) None
  /\ flow (consumer (sqs := Mock.sqs) (with_Callback Mock.worker None) 0
             [Recv 10 true (Some (Mock.msg "a" "T1"));
              Recv 20 true (Some (Mock.msg "x" "T2")); CtxDone] Mock.world)
     = flow (consumer (sqs := Mock.sqs) Mock.worker 0
               [Recv 10 true (Some (Mock.msg "a" "T1"));
                Recv 20 true (Some (Mock.msg "x" "T2")); CtxDone] Mock.world).
Proof.
  assert (Hw : reads_only (Worker.Callback Mock.worker)).
  { intros result err u. destruct result; reflexivity. }
  split; [exact Hw |]. split; [exact I |].
  apply (proj2 (@callback_observes_only Mock.t nat Mock.sqs Mock.worker 0
                  [Recv 10 true (Some (Mock.msg "a" "T1"));
                   Recv 20 true (Some (Mock.msg "x" "T2")); CtxDone]
                  Mock.world) None Hw I).
Defined.

(** C8 as stated fails: a callback that writes into the result changes
    what is forwarded, and with it what the queue answers and whether
    the message is acknowledged.  The handler echoes "a"; with the
    callback that writes nothing "a" is forwarded and "T1" is
    acknowledged; with the callback that writes an "x" the body "x" is
    forwarded, the queue rejects it, and "T1" is not acknowledged. *)
Lemma callback_changes_the_flow :
  let script := [Recv 10 true (Some (Mock.msg "a" "T1"))] in
  let w := Mock.worker in
  let w' := with_Callback Mock.worker (Some Mock.scribbling) in
  map d_events (snd (consumer (sqs := Mock.sqs) w 0 script Mock.world))
  = [[EvCallback (list_byte_of_string "a") None;
      EvSendMessage {| send_QueueUrl := "out"; MessageBody := Some "a" |}
                    None;
      EvDeleteMessage {| delete_QueueUrl := "in";
                         delete_ReceiptHandle := Some "T1" |} None]]
  /\ map d_events (snd (consumer (sqs := Mock.sqs) w' 0 script Mock.world))
     = [[EvCallback (list_byte_of_string "a") None;
         EvSendMessage {| send_QueueUrl := "out"; MessageBody := Some "x" |}
                       (Some (OtherError "rejected"));
         EvLogError "rejected" "TestApp" "send message failed!"
                    (OtherError "rejected")]]
  /\ flow (consumer (sqs := Mock.sqs) w' 0 script Mock.world)
     <> flow (consumer (sqs := Mock.sqs) w 0 script Mock.world).
Proof.
  split; [reflexivity |]. split; [reflexivity |].
  vm_compute. intros H. discriminate H.
Qed.

Lemma fetch_error_not_fatal_witness :
  ctx_done {| ctx_done := false; out_room := 5 |} = false
  /\ ReceiveMessage (SQSAPI := Mock.sqs) (receive_params Mock.worker)
                    (queue Mock.outage)
     = (([], Some (OtherError "timeout")),
        {| Mock.inbox := [([Mock.msg "b" "T2"], None)];
           Mock.send_fails := ["x"]; Mock.delete_fails := ["T9"] |})
  /\ producer (sqs := Mock.sqs) Mock.worker
              [{| ctx_done := false; out_room := 5 |};
               {| ctx_done := false; out_room := 5 |};
               {| ctx_done := true; out_room := 5 |}]
              Mock.outage
     = polled (EvReceiveMessage (receive_params Mock.worker) []
                                (Some (OtherError "timeout"))
               :: logged Mock.worker "recieve messages failed!"
                         (OtherError "timeout"))
              (producer (sqs := Mock.sqs) Mock.worker
                 [{| ctx_done := false; out_room := 5 |};
                  {| ctx_done := true; out_room := 5 |}]
                 {| queue := {| Mock.inbox := [([Mock.msg "b" "T2"], None)];
                                Mock.send_fails := ["x"];
                                Mock.delete_fails := ["T9"] |};
                    user := user Mock.outage |}).
Proof.
  split; [reflexivity |]. split; [reflexivity |].
  apply (proj2 (@fetch_error_not_fatal Mock.t nat Mock.sqs Mock.worker
                  [{| ctx_done := false; out_room := 5 |};
                   {| ctx_done := true; out_room := 5 |}]
                  Mock.outage));
    reflexivity.
Defined.

Lemma fetch_pushes_the_response_witness :
  snd (producer (sqs := Mock.sqs) Mock.worker
         [{| ctx_done := false; out_room := 5 |};
          {| ctx_done := true; out_room := 5 |}]
         Mock.world)
  = [] ++ [EvReceiveMessage (receive_params Mock.worker)
                            [Mock.msg "a" "T1"] None;
           EvPush (Mock.msg "a" "T1")] :: []
  /\ exists (messages : list Message) (err : error) (rest : list Event),
       [EvReceiveMessage (receive_params Mock.worker)
                         [Mock.msg "a" "T1"] None;
        EvPush (Mock.msg "a" "T1")]
       = EvReceiveMessage (receive_params Mock.worker) messages err :: rest
       /\ receive_MaxNumberOfMessages (receive_params Mock.worker) = 1
       /\ (err = None ->
           pushed [EvReceiveMessage (receive_params Mock.worker)
                                    [Mock.msg "a" "T1"] None;
                   EvPush (Mock.msg "a" "T1")]
           = messages).
Proof.
  split; [reflexivity |].
  destruct (@fetch_pushes_the_response Mock.t nat Mock.sqs Mock.worker
              [{| ctx_done := false; out_room := 5 |};
               {| ctx_done := true; out_room := 5 |}]
              Mock.world []  []
              [EvReceiveMessage (receive_params Mock.worker)
                                [Mock.msg "a" "T1"] None;
               EvPush (Mock.msg "a" "T1")]
              eq_refl)
    as [messages [err [rest [Htr [Hmax [_ [_ [_ [_ Hall]]]]]]]]].
  exists messages, err, rest. split; [exact Htr |]. split; [exact Hmax |].
  intros Herr. apply Hall; [exact Herr |].
  right. intros m. discriminate.
Defined.

(** C10 as stated fails: the request asks for one message, and when the
    response holds eleven the producer pushes them all in that very
    turn. *)
Lemma one_fetch_many_pushes :
  let run := producer (sqs := Mock.sqs) Mock.worker
               [{| ctx_done := false; out_room := 11 |};
                {| ctx_done := true; out_room := 0 |}]
               Mock.flood in
  fst (fst run) = ProducerReturned
  /\ exists (messages : list Message) (pushes : list Event),
       snd run
       = [EvReceiveMessage (receive_params Mock.worker) messages None
          :: pushes]
       /\ receive_MaxNumberOfMessages (receive_params Mock.worker) = 1
       /\ List.length messages = 11%nat
       /\ pushes = map EvPush messages
       /\ count is_Push pushes = 11%nat.
Proof.
  split; [reflexivity |].
  do 2 eexists. split; [reflexivity |]. repeat split.
Qed.

(** ** Scenarios *)

(** A consumer whose timer is spent takes the next message and stays in
    [Exec]: this is where a consumer is after a timeout. *)
Lemma consumer_parks_on_spent_timer
      (Q U : Type) (sqs : SQSAPI Q) (w : Worker.t U) (st : locals)
      (now : Z) (tie : bool) (msg : option Message) (rest : list received)
      (s : World Q U) :
  handlerParams.Timer (hanlderInput st) = spent ->
  consumer_loop w st (Recv now tie msg :: rest) s = (Parked msg, s, []).
Proof.
  intros H. simpl. rewrite (Exec_spent w _ now tie msg H). reflexivity.
Qed.

(** Three messages, a handler that echoes them, no out queue: the three
    receipt handles are acknowledged and nothing is logged. *)
Example three_messages_acknowledged :
  let run := consumer (sqs := Mock.sqs) Mock.no_sink 0
               [Recv 10 true (Some (Mock.msg "a" "T1"));
                Recv 20 true (Some (Mock.msg "b" "T2"));
                Recv 30 true (Some (Mock.msg "c" "T3"))] Mock.world in
  map d_events (snd run)
  = [[EvCallback (list_byte_of_string "a") None;
      EvDeleteMessage {| delete_QueueUrl := "in";
                         delete_ReceiptHandle := Some "T1" |} None];
     [EvCallback (list_byte_of_string "b") None;
      EvDeleteMessage {| delete_QueueUrl := "in";
                         delete_ReceiptHandle := Some "T2" |} None];
     [EvCallback (list_byte_of_string "c") None;
      EvDeleteMessage {| delete_QueueUrl := "in";
                         delete_ReceiptHandle := Some "T3" |} None]]
  /\ user (snd (fst run)) = 3%nat.
Proof. split; reflexivity. Qed.

(** A handler that sleeps for 2s under a timeout of 1s: the timeout is
    logged, "T1" is not acknowledged, and the consumer does not come
    back from [Exec] for the message it takes next. *)
Example timeout_then_parked :
  let run := consumer (sqs := Mock.sqs) Mock.worker 0
               [Recv 10 true (Some (Mock.msg "slow" "T1"));
                Recv 5000000000 true (Some (Mock.msg "a" "T2"))]
               Mock.world in
  fst (fst run) = Parked (Some (Mock.msg "a" "T2"))
  /\ map d_events (snd run)
     = [[EvCallback [] (Some HandlerTimeout);
         EvLogError "Handler Timeout!" "TestApp" "handler failed!"
                    HandlerTimeout]].
Proof. split; reflexivity. Qed.

(** Were the timer armed while a task of an earlier message is pending,
    [Exec] would return that task's result for the next message. *)
Example Exec_on_stale_handlerParams :
  exists hp : handlerParams.t,
    Exec Mock.worker Mock.stale 10 true (Some (Mock.msg "new" "T2"))
    = Some (list_byte_of_string "old", None, hp)
    /\ ~ rested Mock.stale.
Proof.
  eexists. split; [reflexivity |].
  intros [[H _] | H]; discriminate.
Qed.

(** The nil of the closed channel goes to the handler and to the
    callback like a message; when the handler returns no error for it
    and its result is forwarded, the consumer panics on the receipt
    handle it then reads. *)
Example nil_message_panics :
  consumer (sqs := Mock.sqs) Mock.worker 0
    [Recv 10 true None; CtxDone] Mock.world
  = (Panicked nil_dereference,
     {| queue := queue Mock.world; user := 1%nat |},
     [{| d_msg := None;
         d_result := list_byte_of_string "nil";
         d_err := None;
         d_left := list_byte_of_string "nil";
         d_events :=
           [EvCallback (list_byte_of_string "nil") None;
            EvSendMessage {| send_QueueUrl := "out";
                             MessageBody := Some "nil" |} None] |}]).
Proof. reflexivity. Qed.

(** * Further properties *)

(** ** Exec on the handlerParams of a consumer *)

Section ExecMore.

Variable U : Type.
Variable w : Worker.t U.

Lemma select_launch_armed (now due : Z) (tie : bool) (m : option Message) :
  select now tie [launch w now m]
         {| Timer.armed := Some due; Timer.C := false |}
  <> NoCase.
Proof.
  unfold select. rewrite first_send_launch. unfold Timer.tick_at. simpl.
  destruct (run_time (Worker.Handler w now m)) as [d |]; simpl;
    [| discriminate].
  destruct (_ <=? _); [destruct tie; discriminate |].
  destruct (_ <? _); [discriminate |].
  destruct (_ <? _); [discriminate |].
  destruct tie; discriminate.
Qed.

(** X1. On the [handlerParams] of a consumer, [Exec] fails to return
    exactly when the timer is spent, that is after a call that ended in
    a timeout; on fresh [handlerParams] and after every call that
    returned the handler's result it returns. *)
Theorem Exec_returns_iff_timer_live :
  forall (hp : handlerParams.t) (now : Z) (tie : bool) (m : option Message),
    reachable w hp ->
    (Exec w hp now tie m = None <-> handlerParams.Timer hp = spent).
Proof.
  intros hp now tie m Hreach. split.
  - destruct (reachable_rested Hreach) as [[HD [due HT]] | Hspent];
      [| intros _; assumption].
    rewrite (Exec_rested w hp now tie m HD HT).
    pose proof (select_launch_armed now (now + Worker.Timeout w) tie m) as Hsel.
    destruct (select now tie [launch w now m] _);
      [discriminate | discriminate | contradiction].
  - apply Exec_spent.
Qed.

(** X2. When the handler finishes within the timeout, [Exec] returns
    what the handler returned, result and error alike, and leaves
    [handlerParams] with no pending task and a live timer: the next call
    returns too, however late it comes. *)
Theorem Exec_in_time :
  forall (hp : handlerParams.t) (now : Z) (tie : bool) (m : option Message)
         (d : positive),
    reachable w hp ->
    handlerParams.Timer hp <> spent ->
    run_time (Worker.Handler w now m) = Some d ->
    Z.pos d < Worker.Timeout w ->
    exists hp' : handlerParams.t,
      Exec w hp now tie m
      = Some (Result (run_outcome (Worker.Handler w now m)),
              Err (run_outcome (Worker.Handler w now m)), hp')
      /\ handlerParams.Done hp' = []
      /\ forall now' tie' m', Exec w hp' now' tie' m' <> None.
Proof.
  intros hp now tie m d Hreach Hlive Hd Hlt.
  destruct (reachable_rested Hreach) as [[HD [due HT]] | Hspent];
    [| contradiction].
  pose proof (Exec_rested w hp now tie m HD HT) as HE. cbv zeta in HE.
  assert (Hpos : 0 < Worker.Timeout w) by lia.
  assert (Hsel : select now tie [launch w now m]
                   {| Timer.armed := Some (now + Worker.Timeout w);
                      Timer.C := false |}
                 = FromDone (now + Z.pos d)).
  { rewrite (@select_positive U w now tie m Hpos), Hd.
    replace (Z.pos d <? Worker.Timeout w)
      with true by (symmetry; apply Z.ltb_lt; lia).
    reflexivity. }
  rewrite Hsel in HE. eexists. split; [exact HE |].
  split; [reflexivity |].
  intros now' tie' m' Hnone.
  assert (Hreach' : reachable w
            {| handlerParams.Done := [];
               handlerParams.Result := run_outcome (Worker.Handler w now m);
               handlerParams.Timer :=
                 {| Timer.armed := Some (now + Worker.Timeout w);
                    Timer.C := false |} |})
    by (eapply reach_Exec; eassumption).
  destruct (reachable_rested Hreach') as [[HD' [due' HT']] | Hspent'].
  - rewrite (Exec_rested w _ now' tie' m' HD' HT') in Hnone.
    pose proof (select_launch_armed now' (now' + Worker.Timeout w) tie' m')
      as Hsel'.
    destruct (select now' tie' [launch w now' m'] _);
      [discriminate | discriminate | contradiction].
  - discriminate.
Qed.

(** X3. Whatever [Exec] returns on the [handlerParams] of a consumer is
    either the timeout or the outcome of the handler run it launched
    for that very message. *)
Theorem Exec_own_outcome :
  forall (hp hp' : handlerParams.t) (now : Z) (tie : bool)
         (m : option Message) (result : list byte) (err : error),
    reachable w hp ->
    Exec w hp now tie m = Some (result, err, hp') ->
    (result = [] /\ err = Some HandlerTimeout)
    \/ (result = Result (run_outcome (Worker.Handler w now m))
        /\ err = Err (run_outcome (Worker.Handler w now m))).
Proof.
  intros hp hp' now tie m result err Hreach HE.
  destruct (reachable_rested Hreach) as [[HD [due HT]] | Hspent].
  - rewrite (Exec_rested w hp now tie m HD HT) in HE.
    destruct (select now tie [launch w now m] _); inversion HE; subst; auto.
  - rewrite Exec_spent in HE by assumption. discriminate.
Qed.

(** With a timeout that is not positive the tick is there when the
    select begins: the select takes it unless it takes a send of the
    handler. *)
Lemma select_nonpositive (now : Z) (tie : bool) (m : option Message) :
  Worker.Timeout w <= 0 ->
  select now tie [launch w now m]
         {| Timer.armed := Some (now + Worker.Timeout w); Timer.C := false |}
  = match run_time (Worker.Handler w now m), tie with
    | Some d, true => FromDone (now + Z.pos d)
    | _, _ => FromTimer now
    end.
Proof.
  intros Hle. unfold select. rewrite first_send_launch.
  unfold Timer.tick_at. cbn [Timer.C Timer.armed].
  rewrite Z.max_l by lia.
  destruct (run_time (Worker.Handler w now m)) as [d |]; cbn [option_map];
    [| reflexivity].
  rewrite Z.leb_refl. reflexivity.
Qed.

(** X4. With a timeout that is zero or negative the tick is there as
    soon as the timer is reset, and [Exec] returns without waiting for
    anything.  It returns the timeout, and leaves the timer spent,
    when its select takes the tick: always so when the handler does not
    return.  It returns the handler's own outcome, and leaves the timer
    live, when its select takes the handler's send instead: such a
    timeout does not keep the handler's results out. *)
Theorem Exec_nonpositive_timeout :
  forall (hp : handlerParams.t) (now : Z) (tie : bool) (m : option Message),
    reachable w hp ->
    handlerParams.Timer hp <> spent ->
    Worker.Timeout w <= 0 ->
    exists hp' : handlerParams.t,
      match run_time (Worker.Handler w now m), tie with
      | Some _, true =>
          Exec w hp now tie m
          = Some (Result (run_outcome (Worker.Handler w now m)),
                  Err (run_outcome (Worker.Handler w now m)), hp')
          /\ handlerParams.Done hp' = []
          /\ handlerParams.Timer hp' <> spent
      | _, _ =>
          Exec w hp now tie m = Some ([], Some HandlerTimeout, hp')
          /\ handlerParams.Done hp' = [launch w now m]
          /\ handlerParams.Timer hp' = spent
      end.
Proof.
  intros hp now tie m Hreach Hlive Hle.
  destruct (reachable_rested Hreach) as [[HD [due HT]] | Hspent];
    [| contradiction].
  rewrite (Exec_rested w hp now tie m HD HT).
  rewrite (select_nonpositive now tie m Hle).
  destruct (run_time (Worker.Handler w now m)) as [d |], tie;
    eexists; (split; [reflexivity |]); split;
    try reflexivity; discriminate.
Qed.

End ExecMore.

(** ** The deliveries of a consumer *)

Section ConsumerMore.

Variables Q U : Type.
Context {sqs : SQSAPI Q}.
Variable w : Worker.t U.

(** A property of the variables that [handled] keeps, and a property of
    deliveries that it then establishes, hold along every run. *)
Lemma consumer_loop_deliveries (I : locals -> Prop) (P : delivery -> Prop) :
  (forall st hp, I st -> I (with_handlerParams st hp)) ->
  (forall st msg result err s r s1 tr,
      I st ->
      handled w st msg result err s = (r, s1, tr) ->
      (forall st1, r = inr st1 -> I st1)
      /\ P {| d_msg := msg; d_result := result; d_err := err;
              d_left := written w result err s; d_events := tr |}) ->
  forall (script : list received) (st : locals) (s : World Q U),
    I st -> Forall P (snd (consumer_loop w st script s)).
Proof.
  intros Hhp Hstep.
  induction script as [| r script IH]; intros st s HI; simpl.
  - constructor.
  - destruct r as [| now tie msg]; [constructor |].
    destruct (Exec w (hanlderInput st) now tie msg)
      as [[[result err] hp] |]; [| constructor].
    destruct (handled w (with_handlerParams st hp) msg result err s)
      as [[r1 s1] tr] eqn:HH.
    destruct (Hstep _ _ _ _ _ _ _ _ (Hhp st hp HI) HH) as [HI1 HP].
    destruct r1 as [p | st1].
    + simpl. constructor; [exact HP | constructor].
    + specialize (IH st1 s1 (HI1 st1 eq_refl)).
      destruct (consumer_loop w st1 script s1) as [[status s2] ds].
      simpl in *. constructor; assumption.
Qed.

Ltac handled_cases msg err :=
  unfold handled, forward_and_acknowledge, written, bind, callback,
         sendMessage, deleteMessage, LogError, ret;
  unfold has_logger;
  destruct err; destruct (Worker.Callback w) as [? |]; simpl;
  try match goal with
      | c : Callback _ |- _ =>
          match goal with
          | |- context [c ?r ?e ?u] => destruct (c r e u) as [? ?]; simpl
          end
      end;
  try (destruct (String.eqb_spec (Worker.QueueOutUrl w) ""); simpl);
  try match goal with
      | |- context [SendMessage ?i ?q] =>
          destruct (SendMessage i q) as [[? |] ?]; simpl
      end;
  destruct msg as [? |]; simpl;
  try match goal with
      | |- context [DeleteMessage ?i ?q] =>
          destruct (DeleteMessage i q) as [[? |] ?]; simpl
      end;
  destruct (Worker.Logger w); simpl;
  let H := fresh in intros H; inversion H; subst; clear H; simpl.

(** X5. In every delivery of a run of the consumer, [SendMessage] is
    called once when the handler returned no error and the worker has
    an out queue, and never otherwise; [DeleteMessage] is called once
    when the handler returned no error, no [SendMessage] failed and
    what was received is a message and not the nil of the closed
    channel, and never otherwise: a message is acknowledged exactly
    when it was handled and forwarded, and no call is retried. *)
Theorem consumer_calls_once :
  forall (now : Z) (script : list received) (s : World Q U),
    Forall (fun d =>
              count is_SendMessage (d_events d)
              = (if no_error (d_err d)
                    && negb (String.eqb (Worker.QueueOutUrl w) "")
                 then 1 else 0)%nat
              /\ count is_DeleteMessage (d_events d)
                 = (if no_error (d_err d)
                       && negb (existsb (fun e => is_SendMessage e
                                                  && failed_call e)
                                        (d_events d))
                       && negb (is_nil (d_msg d))
                    then 1 else 0)%nat)
           (snd (consumer w now script s)).
Proof.
  intros now script s. unfold consumer.
  apply (consumer_loop_deliveries (fun _ => True)); [auto | | exact I].
  intros st msg result err s0 r s1 tr _ HH. split; [auto |].
  revert HH. unfold count.
  handled_cases msg err; split; reflexivity.
Qed.

(** X6. In every delivery of a run of the consumer exactly one error
    is logged when the handler returned an error or a call to the queue
    failed, and none otherwise; a worker without a logger logs
    nothing. *)
Theorem consumer_logs_failures :
  forall (now : Z) (script : list received) (s : World Q U),
    Forall (fun d =>
              count is_LogError (d_events d)
              = (if has_logger w
                    && (negb (no_error (d_err d))
                        || existsb failed_call (d_events d))
                 then 1 else 0)%nat)
           (snd (consumer w now script s)).
Proof.
  intros now script s. unfold consumer.
  apply (consumer_loop_deliveries (fun _ => True)); [auto | | exact I].
  intros st msg result err s0 r s1 tr _ HH. split; [auto |].
  revert HH. unfold count.
  handled_cases msg err; reflexivity.
Qed.

(** X7. Along a run of [consumer] the request records that are reused
    from one message to the next never carry anything stale: every
    [SendMessage] goes to the out queue with the result that [Exec]
    returned for this message, as the callback left it, every
    [DeleteMessage] goes to the in queue with this message's receipt
    handle, the callback is called on what [Exec] returned for this
    message, and nothing else is called but the logger, under the
    worker's name.  What the callback leaves has the length of what
    [Exec] returned, and is what [Exec] returned when there is no
    callback or the callback writes nothing. *)
Theorem consumer_events_of_the_message :
  forall (now : Z) (script : list received) (s : World Q U),
    Forall (fun d => Forall (consumer_event w d) (d_events d)
                     /\ List.length (d_left d) = List.length (d_result d)
                     /\ (reads_only (Worker.Callback w) ->
                         d_left d = d_result d))
           (snd (consumer w now script s)).
Proof.
  intros now script s. unfold consumer.
  apply (consumer_loop_deliveries (addressed w)).
  - intros st hp H. exact H.
  - intros st msg result err s0 r s1 tr [Hsend Hdel] HH.
    assert (Hleft : List.length (written w result err s0)
                    = List.length result
                    /\ (reads_only (Worker.Callback w) ->
                        written w result err s0 = result)).
    { split; [apply written_length | apply written_reads_only]. }
    cbn [d_left d_result d_events].
    assert (Hmain : (forall st1, r = inr st1 -> addressed w st1)
                    /\ Forall (consumer_event w
                                 {| d_msg := msg; d_result := result;
                                    d_err := err;
                                    d_left := written w result err s0;
                                    d_events := tr |}) tr).
    { clear Hleft. revert HH. unfold addressed.
      handled_cases msg err; rewrite ?Hsend, ?Hdel;
        (split; [intros ? Heq; inversion Heq; subst; simpl;
                 split; assumption || reflexivity |]);
        repeat constructor; simpl; auto. }
    destruct Hmain as [HI HP]. split; [exact HI |].
    split; [exact HP | exact Hleft].
  - split; reflexivity.
Qed.

(** With a message, not nil, [handled] goes back to the head of the
    loop; and whenever it does, it leaves [hanlderInput] as it was. *)
Lemma handled_message (Q' : Type) (sqs' : SQSAPI Q') (st : locals)
      (msg : Message) (result : list byte)
      (err : error) (s s1 : World Q' U) (r : panic + locals)
      (tr : list Event) :
  handled (sqs := sqs') w st (Some msg) result err s = (r, s1, tr) ->
  exists st1 : locals, r = inr st1.
Proof.
  set (m := Some msg). assert (Hm : m = Some msg) by reflexivity.
  clearbody m. intros HH. revert Hm. revert HH.
  handled_cases m err; intros Hm; try discriminate;
    eexists; reflexivity.
Qed.

Lemma handled_handlerParams (Q' : Type) (sqs' : SQSAPI Q') (st st1 : locals)
      (msg : option Message) (result : list byte)
      (err : error) (s s1 : World Q' U) (tr : list Event) :
  handled (sqs := sqs') w st msg result err s = (inr st1, s1, tr) ->
  hanlderInput st1 = hanlderInput st.
Proof. handled_cases msg err; reflexivity. Qed.

Lemma consumer_loop_open (Q' : Type) (sqs' : SQSAPI Q')
                          (script : list received) :
  forall (st : locals) (s : World Q' U),
    forallb from_open script = true ->
    panicked (fst (fst (consumer_loop (sqs := sqs') w st script s))) = false.
Proof.
  induction script as [| r script IH]; intros st s Hopen; simpl.
  - reflexivity.
  - simpl in Hopen. apply andb_true_iff in Hopen.
    destruct Hopen as [Hr Hopen].
    destruct r as [| now tie [msg |]]; [reflexivity | | discriminate].
    destruct (Exec w (hanlderInput st) now tie (Some msg))
      as [[[result err] hp] |]; [| reflexivity].
    destruct (handled (sqs := sqs') w (with_handlerParams st hp) (Some msg)
                      result err s)
      as [[r1 s1] tr] eqn:H1.
    destruct (@handled_message _ _ _ _ _ _ _ _ _ _ H1) as [st1 ->].
    specialize (IH st1 s1 Hopen).
    destruct (consumer_loop (sqs := sqs') w st1 script s1)
      as [[status ws] ds].
    exact IH.
Qed.

(** X8. Which messages a consumer handles, what [Exec] returns for them
    and where the consumer stops are the same whatever queue it talks
    to and whatever that queue answers: no failure of [SendMessage] or
    [DeleteMessage] stops or diverts the loop.  The one way in which an
    answer of the queue matters is the panic of line 158, after the
    nil of the closed channel has been forwarded; a consumer that
    receives messages only does not panic. *)
Theorem consumer_outcomes_independent_of_queue :
  forall (Q' : Type) (sqs' : SQSAPI Q') (script : list received)
         (st st' : locals) (s : World Q U) (s' : World Q' U),
    hanlderInput st' = hanlderInput st ->
    (forallb from_open script = true ->
     panicked (fst (fst (consumer_loop w st script s))) = false
     /\ panicked (fst (fst (consumer_loop (sqs := sqs') w st' script s')))
        = false)
    /\ (panicked (fst (fst (consumer_loop w st script s))) = false ->
        panicked (fst (fst (consumer_loop (sqs := sqs') w st' script s')))
        = false ->
        halt_of (fst (fst (consumer_loop (sqs := sqs') w st' script s')))
        = halt_of (fst (fst (consumer_loop w st script s)))
        /\ map outcome (snd (consumer_loop (sqs := sqs') w st' script s'))
           = map outcome (snd (consumer_loop w st script s))).
Proof.
  intros Q' sqs' script st st' s s' Hhp.
  split; [intros Hopen; split; apply consumer_loop_open; exact Hopen |].
  revert st st' s s' Hhp.
  induction script as [| r script IH]; intros st st' s s' Hhp; simpl.
  - rewrite Hhp. split; reflexivity.
  - destruct r as [| now tie msg]; [split; reflexivity |].
    rewrite Hhp.
    destruct (Exec w (hanlderInput st) now tie msg)
      as [[[result err] hp] |]; [| split; reflexivity].
    destruct (handled w (with_handlerParams st hp) msg result err s)
      as [[r1 s1] tr] eqn:H1.
    destruct (handled (sqs := sqs') w (with_handlerParams st' hp)
                      msg result err s')
      as [[r1' s1'] tr'] eqn:H2.
    destruct r1 as [p | st1]; [simpl; discriminate |].
    destruct r1' as [p | st1']; [simpl; discriminate |].
    assert (Hhp1 : hanlderInput st1' = hanlderInput st1).
    { rewrite (@handled_handlerParams _ _ _ _ _ _ _ _ _ _ H1),
              (@handled_handlerParams _ _ _ _ _ _ _ _ _ _ H2). reflexivity. }
    specialize (IH st1 st1' s1 s1' Hhp1).
    destruct (consumer_loop w st1 script s1) as [[status ws] ds].
    destruct (consumer_loop (sqs := sqs') w st1' script s1')
      as [[status' ws'] ds'].
    simpl in *. intros Hp Hp'. destruct (IH Hp Hp') as [IH1 IH2].
    split; [assumption |].
    unfold outcome at 1 3. simpl. rewrite IH2. reflexivity.
Qed.

(** X9. The consumer returns only when one of its selects takes the
    cancellation.  Whatever it received from the channel before that,
    a message or the nil of the closed channel, went to [Exec] and was
    delivered: there is one delivery for each reception, in order. *)
Theorem consumer_returns_on_cancellation :
  forall (script : list received) (st : locals) (s : World Q U),
    fst (fst (consumer_loop w st script s)) = Returned ->
    exists pre post,
      script = pre ++ CtxDone :: post
      /\ Forall (fun r => r <> CtxDone) pre
      /\ map d_msg (snd (consumer_loop w st script s)) = receptions pre.
Proof.
  induction script as [| r script IH]; intros st s; simpl.
  - discriminate.
  - destruct r as [| now tie msg].
    + intros _. exists [], script. repeat split; constructor.
    + destruct (Exec w (hanlderInput st) now tie msg)
        as [[[result err] hp] |]; [| simpl; discriminate].
      destruct (handled w (with_handlerParams st hp) msg result err s)
        as [[[p | st1] s1] tr]; [simpl; discriminate |].
      specialize (IH st1 s1).
      destruct (consumer_loop w st1 script s1) as [[status s2] ds].
      simpl in *. intros Hret.
      destruct (IH Hret) as [pre [post [Hs [Hpre Hmap]]]].
      exists (Recv now tie msg :: pre), post. subst script.
      repeat split; [constructor; [discriminate | assumption] |].
      simpl. rewrite Hmap. reflexivity.
Qed.

(** When [Exec] leaves the timer spent it has returned the timeout. *)
Lemma Exec_left_spent (hp hp' : handlerParams.t) (now : Z) (tie : bool)
      (m : option Message) (result : list byte) (err : error) :
  Exec w hp now tie m = Some (result, err, hp') ->
  handlerParams.Timer hp' = spent ->
  result = [] /\ err = Some HandlerTimeout.
Proof.
  unfold Exec, rearm.
  destruct (Timer.Stop now (handlerParams.Timer hp)) as [stopped tm].
  destruct (if stopped then Some tm
            else match Timer.tick_at now tm with
                 | Some _ => Some (Timer.received tm)
                 | None => None
                 end) as [tm' |]; simpl; [| discriminate].
  destruct (select now tie _ _); intros HE; inversion HE; subst; simpl;
    [discriminate | auto].
Qed.

Lemma written_nil (err : error) (s : World Q U) : written w [] err s = [].
Proof.
  pose proof (written_length w [] err s) as H.
  destruct (written w [] err s); [reflexivity | discriminate].
Qed.

Lemma consumer_loop_spent (st : locals) (now : Z) (tie : bool)
      (msg : option Message) (now' : Z) (tie' : bool)
      (msg' : option Message)
      (rest : list received) (s : World Q U) (hp : handlerParams.t) :
  Exec w (hanlderInput st) now tie msg = Some ([], Some HandlerTimeout, hp) ->
  handlerParams.Timer hp = spent ->
  consumer_loop w st (Recv now tie msg :: Recv now' tie' msg' :: rest) s
  = (Parked msg',
     called_back w [] (Some HandlerTimeout) s,
     [{| d_msg := msg; d_result := []; d_err := Some HandlerTimeout;
         d_left := [];
         d_events := callback_events w [] (Some HandlerTimeout)
                     ++ logged w "handler failed!" HandlerTimeout |}]).
Proof.
  intros HE Hspent.
  erewrite consumer_loop_Recv; [| eassumption | apply handled_failed].
  rewrite consumer_parks_on_spent_timer by assumption.
  rewrite written_nil. reflexivity.
Qed.

(** X10. After a timeout a consumer handles no further message.  When
    [Exec] has returned and left the timer spent, what it returned is
    the timeout; the consumer then takes the next message from the
    channel and stays in [Exec] with it: that message is not handed to
    the handler, nothing is called for it, and the rest of the script,
    a cancellation included, is never seen. *)
Theorem consumer_stuck_after_timeout :
  forall (st : locals) (now : Z) (tie : bool) (msg : option Message)
         (now' : Z) (tie' : bool) (msg' : option Message)
         (rest : list received) (s : World Q U)
         (result : list byte) (err : error) (hp : handlerParams.t),
    Exec w (hanlderInput st) now tie msg = Some (result, err, hp) ->
    handlerParams.Timer hp = spent ->
    result = [] /\ err = Some HandlerTimeout
    /\ consumer_loop w st (Recv now tie msg :: Recv now' tie' msg' :: rest) s
       = (Parked msg',
          called_back w [] (Some HandlerTimeout) s,
          [{| d_msg := msg; d_result := []; d_err := Some HandlerTimeout;
              d_left := [];
              d_events := callback_events w [] (Some HandlerTimeout)
                          ++ logged w "handler failed!" HandlerTimeout |}]).
Proof.
  intros st now tie msg now' tie' msg' rest s result err hp HE Hspent.
  destruct (Exec_left_spent _ _ _ _ HE Hspent) as [-> ->].
  split; [reflexivity |]. split; [reflexivity |].
  apply consumer_loop_spent with (hp := hp); assumption.
Qed.

End ConsumerMore.

(** ** The turns of the producer *)

Section ProducerMore.

Variables Q U : Type.
Context {sqs : SQSAPI Q}.
Variable w : Worker.t U.

(** X11. The producer pushes the messages it fetched, all of them and in
    the order of the responses, one by one; when a send parks on the
    message [m], what was fetched and not pushed is [m] and the
    messages that came after it in the same response. *)
Theorem producer_pushes_what_it_fetched :
  forall (script : list turn) (s : World Q U),
    exists rest : list Message,
      fetched (List.concat (snd (producer w script s)))
      = pushed (List.concat (snd (producer w script s))) ++ rest
      /\ match fst (fst (producer w script s)) with
         | ProducerParked m => exists rest', rest = m :: rest'
         | _ => rest = []
         end.
Proof.
  induction script as [| t script IH]; intros s; simpl.
  - exists []. split; reflexivity.
  - destruct (ctx_done t); [exists []; split; reflexivity |].
    destruct (ReceiveMessage (receive_params w) (queue s))
      as [[messages err] q1] eqn:HR.
    rewrite (poll_run w _ _ HR).
    destruct err as [e |].
    + (* the fetch failed: nothing fetched, nothing pushed *)
      destruct (IH {| queue := q1; user := user s |}) as [rest [Hf Hst]].
      destruct (producer w script _) as [[status s2] trs]. simpl in *.
      exists rest. split; [| assumption].
      rewrite pushed_app, fetched_app.
      destruct (pushed_logged w "recieve messages failed!" e) as [-> ->].
      simpl. assumption.
    + destruct (nth_error messages (out_room t)) as [m |] eqn:Hnth.
      * (* the send of [m] parks *)
        exists (m :: skipn (S (out_room t)) messages). simpl.
        split; [| eexists; reflexivity].
        rewrite !app_nil_r.
        destruct (pushed_pushes (firstn (out_room t) messages)) as [-> ->].
        rewrite app_nil_r. apply nth_error_split. assumption.
      * destruct (IH {| queue := q1; user := user s |}) as [rest [Hf Hst]].
        destruct (producer w script _) as [[status s2] trs]. simpl in *.
        exists rest. split; [| assumption].
        rewrite pushed_app, fetched_app.
        destruct (pushed_pushes (firstn (out_room t) messages)) as [-> ->].
        rewrite (nth_error_all _ _ Hnth), Hf. simpl.
        rewrite app_assoc. reflexivity.
Qed.

(** X12. The producer polls once in each turn that comes before the
    first turn that finds the context cancelled, and in no other: it
    returns at that turn without a request, and a script without such a
    turn leaves it polling; only a send that parks stops it earlier. *)
Theorem producer_polls_until_cancelled :
  forall (script : list turn) (s : World Q U),
    match fst (fst (producer w script s)) with
    | ProducerReturned =>
        List.length (snd (producer w script s)) = polling_turns script
        /\ (polling_turns script < List.length script)%nat
    | ProducerPolling =>
        List.length (snd (producer w script s)) = polling_turns script
        /\ polling_turns script = List.length script
    | ProducerParked _ =>
        (0 < List.length (snd (producer w script s)) <= polling_turns script)%nat
    end.
Proof.
  induction script as [| t script IH]; intros s; simpl.
  - split; reflexivity.
  - destruct (ctx_done t); simpl; [split; [reflexivity | lia] |].
    destruct (poll w (out_room t) s) as [[parked s1] tr].
    destruct parked as [m |]; simpl; [lia |].
    specialize (IH s1).
    destruct (producer w script s1) as [[status s2] trs]. simpl in *.
    destruct status; lia.
Qed.

(** X13. The producer calls neither the callback nor [SendMessage] nor
    [DeleteMessage]: it leaves the state of the application as it was,
    and records only its requests, the errors it logs and its pushes. *)
Theorem producer_only_receives :
  forall (script : list turn) (s : World Q U),
    user (snd (fst (producer w script s))) = user s
    /\ Forall (fun tr => forallb producer_event tr = true)
              (snd (producer w script s)).
Proof.
  induction script as [| t script IH]; intros s; simpl.
  - split; [reflexivity | constructor].
  - destruct (ctx_done t); [split; [reflexivity | constructor] |].
    destruct (ReceiveMessage (receive_params w) (queue s))
      as [[messages err] q1] eqn:HR.
    rewrite (poll_run w _ _ HR).
    assert (Hturn : forallb producer_event
              (EvReceiveMessage (receive_params w) messages err
               :: match err with
                  | Some e => logged w "recieve messages failed!" e
                  | None => map EvPush (firstn (out_room t) messages)
                  end) = true).
    { simpl. destruct err as [e |].
      - unfold logged. destruct (Worker.Logger w); reflexivity.
      - induction (firstn (out_room t) messages); [reflexivity | assumption]. }
    destruct (match err with
              | Some _ => None
              | None => nth_error messages (out_room t)
              end) as [m |].
    + simpl. split; [reflexivity | repeat constructor; assumption].
    + destruct (IH {| queue := q1; user := user s |}) as [IHu IHt].
      destruct (producer w script _) as [[status s2] trs]. simpl in *.
      split; [assumption | constructor; assumption].
Qed.

End ProducerMore.

(** ** A worker made with a negative timeout *)

(** X14. [NewWorker] takes a negative [Timeout] as it is.  In a
    consumer of the worker it returns, the tick is there whenever [Exec]
    reaches its select: as soon as one select takes it rather than a
    send of the handler, the consumer gets the timeout for that
    message, whatever the handler returns and however fast, and handles
    no message after it. *)
Theorem negative_Timeout_worker :
  forall (Q U : Type) (sqs : SQSAPI Q) (NumCPU : Z)
         (NewProduction : option ZapLogger) (wc : WorkerConfig.t U)
         (start now : Z) (msg : option Message)
         (now' : Z) (tie' : bool) (msg' : option Message)
         (rest : list received) (s : World Q U),
    - 9223372036 <= WorkerConfig.Timeout wc < 0 ->
    let w := NewWorker NumCPU NewProduction wc in
    Worker.Timeout w = WorkerConfig.Timeout wc * Second
    /\ consumer w start (Recv now false msg :: Recv now' tie' msg' :: rest) s
       = (Parked msg',
          called_back w [] (Some HandlerTimeout) s,
          [{| d_msg := msg; d_result := []; d_err := Some HandlerTimeout;
              d_left := [];
              d_events := callback_events w [] (Some HandlerTimeout)
                          ++ logged w "handler failed!" HandlerTimeout |}]).
Proof.
  intros Q U sqs NumCPU NewProduction wc start now msg now' tie' msg'
         rest s Hneg w.
  assert (HT : Worker.Timeout w = WorkerConfig.Timeout wc * Second).
  { unfold w, NewWorker; simpl.
    replace (WorkerConfig.Timeout wc =? 0) with false
      by (symmetry; apply Z.eqb_neq; lia).
    apply wrap64_small. unfold int64_range, Second. lia. }
  split; [exact HT |].
  assert (Hle : Worker.Timeout w <= 0) by (rewrite HT; unfold Second; lia).
  unfold consumer.
  assert (HE : Exec w (hanlderInput (consumer_locals w start)) now false msg
               = Some ([], Some HandlerTimeout,
                       {| handlerParams.Done := [launch w now msg];
                          handlerParams.Result := {| Result := []; Err := None |};
                          handlerParams.Timer := spent |})).
  { change (hanlderInput (consumer_locals w start))
      with (getHandlerParams w start).
    rewrite (Exec_rested w (getHandlerParams w start) now false msg
               eq_refl eq_refl).
    rewrite (@select_nonpositive U w now false msg Hle).
    destruct (run_time (Worker.Handler w now msg)); reflexivity. }
  eapply consumer_loop_spent; [exact HE | reflexivity].
Qed.

(** ** The further properties on the sample worker *)

Lemma Exec_returns_iff_timer_live_witness :
  reachable Mock.worker (getHandlerParams Mock.worker 0)
  /\ (Exec Mock.worker (getHandlerParams Mock.worker 0) 10 true
           (Some (Mock.msg "a" "T1")) = None
      <-> handlerParams.Timer (getHandlerParams Mock.worker 0) = spent).
Proof.
  split; [apply reach_new |].
  apply (@Exec_returns_iff_timer_live nat Mock.worker
           (getHandlerParams Mock.worker 0) 10 true
           (Some (Mock.msg "a" "T1"))).
  apply reach_new.
Defined.

Lemma Exec_in_time_witness :
  reachable Mock.worker (getHandlerParams Mock.worker 0)
  /\ handlerParams.Timer (getHandlerParams Mock.worker 0) <> spent
  /\ run_time (Worker.Handler Mock.worker 2000000000
                              (Some (Mock.msg "a" "T1")))
     = Some 5%positive
  /\ 5 < Worker.Timeout Mock.worker
  /\ exists hp' : handlerParams.t,
       Exec Mock.worker (getHandlerParams Mock.worker 0) 2000000000 true
            (Some (Mock.msg "a" "T1"))
       = Some (list_byte_of_string "a", None, hp')
       /\ handlerParams.Done hp' = []
       /\ forall now' tie' m', Exec Mock.worker hp' now' tie' m' <> None.
Proof.
  split; [apply reach_new |].
  split; [discriminate |].
  split; [reflexivity |].
  split; [vm_compute; reflexivity |].
  apply (@Exec_in_time nat Mock.worker (getHandlerParams Mock.worker 0)
           2000000000 true (Some (Mock.msg "a" "T1")) 5%positive).
  - apply reach_new.
  - discriminate.
  - reflexivity.
  - vm_compute; reflexivity.
Defined.

Lemma Exec_own_outcome_witness :
  reachable Mock.worker (getHandlerParams Mock.worker 0)
  /\ (exists hp' : handlerParams.t,
         Exec Mock.worker (getHandlerParams Mock.worker 0) 10 true
              (Some (Mock.msg "bad" "T1"))
         = Some (list_byte_of_string "bad", Some (OtherError "bad"), hp'))
  /\ ((list_byte_of_string "bad" = [] /\ Some (OtherError "bad")
                                        = Some HandlerTimeout)
      \/ (list_byte_of_string "bad"
          = Result (run_outcome (Worker.Handler Mock.worker 10
                                   (Some (Mock.msg "bad" "T1"))))
          /\ Some (OtherError "bad")
             = Err (run_outcome (Worker.Handler Mock.worker 10
                                   (Some (Mock.msg "bad" "T1")))))).
Proof.
  split; [apply reach_new |].
  split; [eexists; reflexivity |].
  eapply (@Exec_own_outcome nat Mock.worker
            (getHandlerParams Mock.worker 0) _ 10 true
            (Some (Mock.msg "bad" "T1"))).
  - apply reach_new.
  - reflexivity.
Defined.

Lemma Exec_nonpositive_timeout_witness :
  let w := NewWorker 4 None (Mock.config "out" (-1)) in
  reachable w (getHandlerParams w 0)
  /\ handlerParams.Timer (getHandlerParams w 0) <> spent
  /\ Worker.Timeout w <= 0
  /\ (exists hp' : handlerParams.t,
         Exec w (getHandlerParams w 0) 10 false (Some (Mock.msg "a" "T1"))
         = Some ([], Some HandlerTimeout, hp')
         /\ handlerParams.Done hp'
            = [launch w 10 (Some (Mock.msg "a" "T1"))]
         /\ handlerParams.Timer hp' = spent)
  /\ (exists hp' : handlerParams.t,
         Exec w (getHandlerParams w 0) 10 true (Some (Mock.msg "a" "T1"))
         = Some (list_byte_of_string "a", None, hp')
         /\ handlerParams.Done hp' = []
         /\ handlerParams.Timer hp' <> spent).
Proof.
  intros w.
  assert (Hle : Worker.Timeout w <= 0) by (vm_compute; discriminate).
  assert (Hlive : handlerParams.Timer (getHandlerParams w 0) <> spent)
    by discriminate.
  split; [apply reach_new |].
  split; [exact Hlive |].
  split; [exact Hle |].
  split.
  - exact (@Exec_nonpositive_timeout nat w (getHandlerParams w 0) 10 false
             (Some (Mock.msg "a" "T1")) (reach_new w 0) Hlive Hle).
  - exact (@Exec_nonpositive_timeout nat w (getHandlerParams w 0) 10 true
             (Some (Mock.msg "a" "T1")) (reach_new w 0) Hlive Hle).
Defined.

Lemma consumer_outcomes_independent_of_queue_witness :
  hanlderInput (consumer_locals Mock.no_sink 0)
  = hanlderInput (consumer_locals Mock.no_sink 0)
  /\ panicked (fst (fst (consumer_loop (sqs := Mock.sqs) Mock.no_sink
                           (consumer_locals Mock.no_sink 0)
                           [Recv 10 true (Some (Mock.msg "a" "T9"))]
                           Mock.world)))
     = false
  /\ panicked (fst (fst (consumer_loop (sqs := Mock.sqs) Mock.no_sink
                           (consumer_locals Mock.no_sink 0)
                           [Recv 10 true (Some (Mock.msg "a" "T9"))]
                           Mock.outage)))
     = false
  /\ halt_of (fst (fst (consumer_loop (sqs := Mock.sqs) Mock.no_sink
                          (consumer_locals Mock.no_sink 0)
                          [Recv 10 true (Some (Mock.msg "a" "T9"))]
                          Mock.outage)))
     = halt_of (fst (fst (consumer_loop (sqs := Mock.sqs) Mock.no_sink
                            (consumer_locals Mock.no_sink 0)
                            [Recv 10 true (Some (Mock.msg "a" "T9"))]
                            Mock.world)))
  /\ map outcome (snd (consumer_loop (sqs := Mock.sqs) Mock.no_sink
                         (consumer_locals Mock.no_sink 0)
                         [Recv 10 true (Some (Mock.msg "a" "T9"))]
                         Mock.outage))
     = map outcome (snd (consumer_loop (sqs := Mock.sqs) Mock.no_sink
                           (consumer_locals Mock.no_sink 0)
                           [Recv 10 true (Some (Mock.msg "a" "T9"))]
                           Mock.world)).
Proof.
  split; [reflexivity |]. split; [reflexivity |]. split; [reflexivity |].
  apply (proj2 (@consumer_outcomes_independent_of_queue Mock.t nat Mock.sqs
                  Mock.no_sink Mock.t Mock.sqs
                  [Recv 10 true (Some (Mock.msg "a" "T9"))]
                  (consumer_locals Mock.no_sink 0)
                  (consumer_locals Mock.no_sink 0) Mock.world Mock.outage
                  eq_refl));
    reflexivity.
Defined.

Lemma consumer_returns_on_cancellation_witness :
  fst (fst (consumer_loop (sqs := Mock.sqs) Mock.worker
              (consumer_locals Mock.worker 0)
              [Recv 10 true (Some (Mock.msg "a" "T1"));
               Recv 20 true None; CtxDone;
               Recv 30 true (Some (Mock.msg "b" "T2"))] Mock.drained))
  = Returned
  /\ exists pre post,
       [Recv 10 true (Some (Mock.msg "a" "T1"));
        Recv 20 true None; CtxDone;
        Recv 30 true (Some (Mock.msg "b" "T2"))]
       = pre ++ CtxDone :: post
       /\ Forall (fun r => r <> CtxDone) pre
       /\ map d_msg
            (snd (consumer_loop (sqs := Mock.sqs) Mock.worker
                    (consumer_locals Mock.worker 0)
                    [Recv 10 true (Some (Mock.msg "a" "T1"));
                     Recv 20 true None; CtxDone;
                     Recv 30 true (Some (Mock.msg "b" "T2"))] Mock.drained))
          = receptions pre.
Proof.
  split; [reflexivity |].
  apply (@consumer_returns_on_cancellation Mock.t nat Mock.sqs Mock.worker
           [Recv 10 true (Some (Mock.msg "a" "T1"));
            Recv 20 true None; CtxDone;
            Recv 30 true (Some (Mock.msg "b" "T2"))]
           (consumer_locals Mock.worker 0) Mock.drained).
  reflexivity.
Defined.

Lemma consumer_stuck_after_timeout_witness :
  (exists hp : handlerParams.t,
      Exec Mock.worker (hanlderInput (consumer_locals Mock.worker 0)) 10 true
           (Some (Mock.msg "never" "T1"))
      = Some ([], Some HandlerTimeout, hp)
      /\ handlerParams.Timer hp = spent)
  /\ fst (fst (consumer_loop (sqs := Mock.sqs) Mock.worker
                 (consumer_locals Mock.worker 0)
                 [Recv 10 true (Some (Mock.msg "never" "T1"));
                  Recv 20 true (Some (Mock.msg "a" "T2")); CtxDone]
                 Mock.world))
     = Parked (Some (Mock.msg "a" "T2")).
Proof.
  split; [eexists; split; reflexivity |].
  destruct (@consumer_stuck_after_timeout Mock.t nat Mock.sqs Mock.worker
              (consumer_locals Mock.worker 0) 10 true
              (Some (Mock.msg "never" "T1"))
              20 true (Some (Mock.msg "a" "T2")) [CtxDone] Mock.world
              [] (Some HandlerTimeout) _ eq_refl eq_refl)
    as [_ [_ Hrun]].
  rewrite Hrun. reflexivity.
Defined.

Lemma negative_Timeout_worker_witness :
  - 9223372036 <= WorkerConfig.Timeout (Mock.config "out" (-5)) < 0
  /\ Worker.Timeout (NewWorker 4 None (Mock.config "out" (-5))) = -5 * Second
  /\ fst (fst (consumer (sqs := Mock.sqs)
                 (NewWorker 4 None (Mock.config "out" (-5))) 0
                 [Recv 10 false (Some (Mock.msg "a" "T1"));
                  Recv 20 true (Some (Mock.msg "b" "T2"))] Mock.world))
     = Parked (Some (Mock.msg "b" "T2")).
Proof.
  split; [simpl; lia |].
  destruct (@negative_Timeout_worker Mock.t nat Mock.sqs 4 None
              (Mock.config "out" (-5)) 0 10 (Some (Mock.msg "a" "T1"))
              20 true (Some (Mock.msg "b" "T2")) [] Mock.world)
    as [HT Hrun]; [simpl; lia |].
  split; [exact HT |].
  rewrite Hrun. reflexivity.
Defined.

(** ** Run *)

Lemma Close_done (U : Type) (w w' : Worker.t U) :
  Close w = inr w' ->
  Worker.done w = SigOpen
  /\ Worker.done w' = SigClosed
  /\ Worker.Consumers w' = Worker.Consumers w.
Proof.
  unfold Close. destruct (Worker.done w) eqn:Hd; simpl;
    intros H; inversion H; subst; auto.
Qed.

Lemma put_length (A : Type) (a : A) (l : list A) :
  forall i : nat, List.length (put i a l) = List.length l.
Proof.
  induction l as [| x l IH]; intros [| i]; simpl; auto.
Qed.

Lemma put_In (A : Type) (a c : A) (l : list A) :
  forall i : nat, In c (put i a l) -> c = a \/ In c l.
Proof.
  induction l as [| x l IH]; intros [| i]; simpl; auto.
  - intros [H | H]; auto.
  - intros [H | H]; auto. destruct (IH i H); auto.
Qed.

Lemma put_forallb (A : Type) (f : A -> bool) (a : A) (l : list A) :
  forall i : nat,
    forallb f l = true -> f a = true -> forallb f (put i a l) = true.
Proof.
  induction l as [| x l IH]; intros [| i] Hl Ha; simpl in *; auto;
    apply andb_true_iff in Hl; destruct Hl as [Hx Hl];
    apply andb_true_iff; auto.
Qed.

(** Case analysis on a step of the engine. *)
Ltac break_step H :=
  unfold step, step_main, step_poller, step_canceller, step_consumer,
         back_from_Exec, set_consumer, after, LogInfo, LogError, callback,
         sendMessage, deleteMessage, receive, ret in H;
  repeat (simpl in H;
          match type of H with
          | context [match ?x with _ => _ end] =>
              lazymatch x with
              | context [match _ with _ => _ end] => fail
              | _ => idtac
              end;
              first [ is_var x; destruct x
                    | let E := fresh "E" in destruct x eqn:E ]
          end);
  simpl in H; try discriminate H;
  try (injection H as H; subst).

(** Use the implications at hand, then conclude by congruence. *)
Ltac conclude :=
  intros;
  repeat match goal with
         | H : ?A -> _, H' : ?A |- _ => specialize (H H')
         end;
  try congruence; auto.

Section EngineFacts.

Variables Q U : Type.
Context {sqs : SQSAPI Q}.

Lemma run_invariant (P : Engine.t Q U -> Prop) :
  (forall e a e', P e -> step e a = Next e' -> P e') ->
  forall (schedule : list action) (e e' : Engine.t Q U),
    P e -> run e schedule = inr e' -> P e'.
Proof.
  intros Hstep. induction schedule as [| a schedule IH]; intros e e' HP; simpl.
  - intros H; injection H as <-. assumption.
  - destruct (step e a) as [e1 | |] eqn:Hs; [| | discriminate].
    + apply IH. eapply Hstep; eassumption.
    + apply IH. assumption.
Qed.

Lemma step_cancellation_chain (e e' : Engine.t Q U) (a : action) :
  cancellation_chain e -> step e a = Next e' -> cancellation_chain e'.
Proof.
  unfold cancellation_chain. intros [H1 [H2 H3]] H.
  destruct a as [| | | | i take_ctx now tie].
  - unfold step in H. destruct (Close (Engine.worker e)) as [p | w'] eqn:HC;
      [discriminate |]. injection H as <-.
    destruct (Close_done _ HC) as [_ [Hd _]]. simpl. auto.
  - break_step H; simpl; repeat split; try solve [conclude];
      intros Hin; apply in_app_or in Hin; destruct Hin as [Hin | [Hin | []]];
      solve [conclude].
  - break_step H; simpl; repeat split; solve [conclude].
  - break_step H; simpl; repeat split; solve [conclude].
  - break_step H; simpl; repeat split; try solve [conclude];
      intros Hin; apply put_In in Hin; destruct Hin as [Hin | Hin];
      try solve [conclude];
      apply andb_true_iff in E1; destruct E1; congruence.
Qed.

Lemma forallb_nth_error (A : Type) (f : A -> bool) (l : list A) :
  forall (i : nat) (a : A),
    forallb f l = true -> nth_error l i = Some a -> f a = true.
Proof.
  induction l as [| x l IH]; intros [| i] a Hl Hi; simpl in *;
    try discriminate; apply andb_true_iff in Hl; destruct Hl as [Hx Hl].
  - injection Hi as <-. assumption.
  - eapply IH; eassumption.
Qed.

Lemma step_wait_group (e e' : Engine.t Q U) (a : action) :
  wait_group e -> step e a = Next e' -> wait_group e'.
Proof.
  unfold wait_group. intros HW H.
  destruct a as [| | | | i take_ctx now tie].
  - unfold step in H. destruct (Close (Engine.worker e)) as [p | w'] eqn:HC;
      [discriminate |]. injection H as <-.
    destruct (Close_done _ HC) as [_ [_ Hc]]. simpl. rewrite Hc. assumption.
  - unfold step, step_main in H.
    destruct (Engine.main e) as [| | | x | |] eqn:Hm.
    + break_step H; simpl; assumption.
    + break_step H; simpl; assumption.
    + break_step H; simpl; rewrite HW; simpl; (split; [lia | reflexivity]).
    + destruct HW as [Hx Hlen].
      destruct (x <? Worker.Consumers (Engine.worker e)) eqn:E0;
        injection H as <-; simpl.
      * apply Z.ltb_lt in E0. rewrite length_app, Hlen. simpl. split; lia.
      * apply Z.ltb_ge in E0. rewrite Hlen. lia.
    + destruct (forallb is_CGone (Engine.consumers e)) eqn:E0;
        [| discriminate]. injection H as <-. simpl. split; assumption.
    + discriminate.
  - break_step H; simpl; assumption.
  - break_step H; simpl; assumption.
  - assert (Hput : forall pc,
               nth_error (Engine.consumers e) i <> Some CGone ->
               nth_error (Engine.consumers e) i <> None ->
               match Engine.main e with
               | MStart | MCanceller | MLog => put i pc (Engine.consumers e) = []
               | MLoop x =>
                   0 <= x <= Z.max 0 (Worker.Consumers (Engine.worker e))
                   /\ List.length (put i pc (Engine.consumers e)) = Z.to_nat x
               | MWait =>
                   List.length (put i pc (Engine.consumers e))
                   = Z.to_nat (Worker.Consumers (Engine.worker e))
               | MReturned =>
                   List.length (put i pc (Engine.consumers e))
                   = Z.to_nat (Worker.Consumers (Engine.worker e))
                   /\ forallb is_CGone (put i pc (Engine.consumers e)) = true
               end).
    { intros pc Hgone Hsome.
      destruct (Engine.main e); rewrite ?put_length; try assumption.
      - rewrite HW in Hsome. destruct i; contradiction.
      - rewrite HW in Hsome. destruct i; contradiction.
      - rewrite HW in Hsome. destruct i; contradiction.
      - destruct HW as [_ Hall].
        destruct (nth_error (Engine.consumers e) i) as [c |] eqn:Hi;
          [| contradiction].
        pose proof (forallb_nth_error _ _ _ Hall Hi) as Hc.
        destruct c; try discriminate. contradiction. }
    break_step H; simpl; apply Hput; congruence.
Qed.

Ltac settle :=
  first [ solve [conclude]
        | lia
        | solve [intuition congruence]
        | solve [intuition discriminate] ].

Lemma step_channel_kept (e e' : Engine.t Q U) (a : action) :
  channel_kept e -> step e a = Next e' -> channel_kept e'.
Proof.
  unfold channel_kept, messages_cap. intros [HL [HC [HP HM]]] H.
  destruct a as [| | | | i take_ctx now tie].
  - unfold step in H. destruct (Close (Engine.worker e)) as [p | w'] eqn:HC';
      [discriminate |]. injection H as <-. simpl. auto.
  - break_step H; simpl; repeat split; intros; settle.
  - break_step H; simpl; rewrite ?orb_false_r, ?orb_true_r;
      repeat split; intros;
      try (rewrite length_app; simpl; apply Nat.ltb_lt in E0;
           unfold messages_cap in E0);
      settle.
  - break_step H; simpl; repeat split; intros; settle.
  - break_step H; simpl; rewrite ?orb_false_r;
      repeat split; intros; simpl in HL;
      try (rewrite E0; simpl); settle.
Qed.

Ltac account Hp Hf :=
  repeat match goal with
         | H : Engine.messages _ = _ |- _ => rewrite H
         end;
  rewrite ?pushed_app, ?fetched_app; simpl;
  rewrite ?app_nil_r, ?Hp, ?Hf; simpl;
  rewrite <- ?app_assoc; simpl; rewrite ?app_nil_r;
  try reflexivity.

Lemma step_conserved (e e' : Engine.t Q U) (a : action) :
  channel_kept e -> conserved e -> step e a = Next e' -> conserved e'.
Proof.
  unfold conserved. intros [_ [_ [_ HM]]] [Hp Hf] H.
  destruct a as [| | | | i take_ctx now tie].
  - unfold step in H. destruct (Close (Engine.worker e)) as [p | w'] eqn:HC';
      [discriminate |]. injection H as <-. simpl. auto.
  - unfold step, step_main in H.
    destruct (Engine.main e) eqn:Hm;
      try (destruct (HM eq_refl) as [HP _]; rewrite HP in Hf);
      break_step H; simpl; split; account Hp Hf.
  - break_step H; simpl; split; account Hp Hf.
  - break_step H; simpl; split; account Hp Hf.
  - break_step H; simpl; split; account Hp Hf.
Qed.

Lemma step_worker (e e' : Engine.t Q U) (a : action) :
  is_ActClose a = false ->
  step e a = Next e' ->
  Engine.worker e' = Engine.worker e.
Proof.
  intros Ha H. destruct a as [| | | | i take_ctx now tie];
    [discriminate | | | |]; break_step H; reflexivity.
Qed.

Lemma step_Consumers (e e' : Engine.t Q U) (a : action) :
  step e a = Next e' ->
  Worker.Consumers (Engine.worker e') = Worker.Consumers (Engine.worker e).
Proof.
  intros H. destruct (is_ActClose a) eqn:Ha.
  - destruct a; try discriminate. unfold step in H.
    destruct (Close (Engine.worker e)) as [p | w'] eqn:HC; [discriminate |].
    injection H as <-. simpl. apply (Close_done _ HC).
  - rewrite (step_worker _ _ Ha H). reflexivity.
Qed.

(** A run without a panic holds at most one call of [Close], and it is
    that call that closes [done]. *)
Lemma run_closes (schedule : list action) :
  forall e e' : Engine.t Q U,
    run e schedule = inr e' ->
    match Worker.done (Engine.worker e) with
    | SigOpen =>
        (closes schedule = 0%nat
         /\ Worker.done (Engine.worker e') = SigOpen)
        \/ (closes schedule = 1%nat
            /\ Worker.done (Engine.worker e') = SigClosed)
    | d => closes schedule = 0%nat /\ Worker.done (Engine.worker e') = d
    end.
Proof.
  unfold closes.
  induction schedule as [| a schedule IH]; intros e e'; simpl.
  - intros H; injection H as <-.
    destruct (Worker.done (Engine.worker e)); auto.
  - destruct (is_ActClose a) eqn:Ha.
    + destruct a; try discriminate. simpl.
      destruct (Close (Engine.worker e)) as [p | w'] eqn:HC; [discriminate |].
      destruct (Close_done _ HC) as [Hopen [Hclosed _]]. rewrite Hopen.
      intros H. specialize (IH _ _ H). simpl in IH. rewrite Hclosed in IH.
      destruct IH as [-> Hd]. right. simpl. auto.
    + destruct (step e a) as [e1 | |] eqn:Hs; [| apply IH | discriminate].
      intros H. specialize (IH _ _ H).
      rewrite (step_worker _ _ Ha Hs) in IH. exact IH.
Qed.

Lemma Run_called_kept (w : Worker.t U) (s : World Q U) :
  cancellation_chain (Run_called w s)
  /\ wait_group (Run_called w s)
  /\ channel_kept (Run_called w s)
  /\ conserved (Run_called w s).
Proof.
  unfold cancellation_chain, wait_group, channel_kept, conserved; simpl.
  repeat split; auto; try discriminate; try lia; try contradiction;
    intros [F | F]; discriminate.
Qed.

Lemma run_kept (schedule : list action) (e e' : Engine.t Q U) :
  cancellation_chain e /\ wait_group e /\ channel_kept e /\ conserved e ->
  run e schedule = inr e' ->
  cancellation_chain e' /\ wait_group e' /\ channel_kept e' /\ conserved e'.
Proof.
  apply (run_invariant
           (fun e => cancellation_chain e /\ wait_group e
                     /\ channel_kept e /\ conserved e)).
  clear. intros e a e' [H1 [H2 [H3 H4]]] Hs.
  split; [| split; [| split]].
  - eapply step_cancellation_chain; eassumption.
  - eapply step_wait_group; eassumption.
  - eapply step_channel_kept; eassumption.
  - eapply step_conserved; eassumption.
Qed.

Lemma run_Consumers (schedule : list action) (e e' : Engine.t Q U) :
  run e schedule = inr e' ->
  Worker.Consumers (Engine.worker e') = Worker.Consumers (Engine.worker e).
Proof.
  intros H.
  apply (run_invariant
           (fun e0 => Worker.Consumers (Engine.worker e0)
                      = Worker.Consumers (Engine.worker e)))
    with (schedule := schedule) (e := e); auto.
  intros e0 a e1 H0 Hs. rewrite (step_Consumers _ _ Hs). assumption.
Qed.

(** X15. [Run] does not return by itself: with at least one consumer,
    a run in which [Run] has returned is a run in which [Close] was
    called, exactly once, on a worker whose [done] channel was open. *)
Theorem Run_returns_after_Close :
  forall (w : Worker.t U) (s : World Q U) (schedule : list action)
         (e : Engine.t Q U),
    0 < Worker.Consumers w ->
    Worker.done w <> SigClosed ->
    Run w s schedule = inr e ->
    Engine.main e = MReturned ->
    Worker.done w = SigOpen /\ closes schedule = 1%nat.
Proof.
  intros w s schedule e Hpos Hdone Hrun Hret. unfold Run in Hrun.
  destruct (run_kept _ (Run_called_kept w s) Hrun) as [[Hc [_ Hg]] [Hw _]].
  pose proof (run_Consumers _ _ Hrun) as HC. simpl in HC.
  unfold wait_group in Hw. rewrite Hret, HC in Hw. destruct Hw as [Hlen Hall].
  assert (Hclosed : Worker.done (Engine.worker e) = SigClosed).
  { apply Hc, Hg.
    destruct (Engine.consumers e) as [| c cs]; [simpl in Hlen; lia |].
    simpl in Hall. apply andb_true_iff in Hall. destruct Hall as [Hcg _].
    destruct c; try discriminate. left. reflexivity. }
  pose proof (run_closes _ _ Hrun) as Hcl. simpl in Hcl.
  destruct (Worker.done w); try contradiction.
  - destruct Hcl as [_ Hd]. congruence.
  - destruct Hcl as [[_ Hd] | [Hn _]]; [congruence | auto].
Qed.

(** X16. With [w.Consumers] zero or negative the loop of [Run] starts no
    consumer and [wg.Wait()] has nothing to wait for: wherever the
    engine is, five moves of [Run] bring it to its return, without any
    call of [Close]. *)
Theorem Run_without_consumers :
  forall (w : Worker.t U) (s : World Q U) (schedule : list action)
         (e : Engine.t Q U),
    Worker.Consumers w <= 0 ->
    Run w s schedule = inr e ->
    Engine.consumers e = []
    /\ exists e' : Engine.t Q U,
         run e [ActMain; ActMain; ActMain; ActMain; ActMain] = inr e'
         /\ Engine.main e' = MReturned.
Proof.
  intros w s schedule e Hle Hrun. unfold Run in Hrun.
  destruct (run_kept _ (Run_called_kept w s) Hrun) as [_ [Hw _]].
  pose proof (run_Consumers _ _ Hrun) as HC. simpl in HC.
  assert (Hnone : forall e0 : Engine.t Q U,
             wait_group e0 ->
             Worker.Consumers (Engine.worker e0) <= 0 ->
             Engine.consumers e0 = []).
  { intros e0 H0 Hc0. unfold wait_group in H0.
    destruct (Engine.main e0); auto;
      [destruct H0 as [Hx H0] | | destruct H0 as [H0 _]];
      destruct (Engine.consumers e0); auto; simpl in H0; lia. }
  split; [apply Hnone; [assumption | lia] |].
  assert (Hgo : forall (n : nat) (e0 : Engine.t Q U),
             wait_group e0 ->
             Worker.Consumers (Engine.worker e0) <= 0 ->
             (main_rank (Engine.main e0) <= n)%nat ->
             exists e' : Engine.t Q U,
               run e0 (repeat ActMain n) = inr e'
               /\ Engine.main e' = MReturned).
  { induction n as [| n IH]; intros e0 H0 Hc0 Hr.
    - exists e0. split; [reflexivity |].
      destruct (Engine.main e0); simpl in Hr; try lia. reflexivity.
    - simpl repeat. simpl run.
      pose proof (Hnone e0 H0 Hc0) as Hcs.
      change (step_main e0) with (step e0 ActMain).
      destruct (step e0 ActMain) as [e1 | |] eqn:Hs.
      + apply IH.
        * eapply step_wait_group; eassumption.
        * rewrite (step_Consumers _ _ Hs). assumption.
        * revert Hs Hr. unfold step, step_main.
          destruct (Engine.main e0) as [| | | x | |] eqn:Hm; simpl;
            intros Hs Hr; break_step Hs; simpl; try lia.
          apply Z.ltb_lt in E.
          unfold wait_group in H0. rewrite Hm in H0. lia.
      + apply IH; try assumption.
        revert Hs Hr. unfold step, step_main.
        destruct (Engine.main e0) as [| | | x | |] eqn:Hm; simpl;
          intros Hs Hr; break_step Hs; simpl; try lia.
        rewrite Hcs in E. discriminate.
      + exfalso. revert Hs. unfold step, step_main.
        destruct (Engine.main e0); intros Hs; break_step Hs. }
  apply (Hgo 5%nat e); [assumption | lia |].
  destruct (Engine.main e); simpl; lia.
Qed.

Lemma put_keeps (A : Type) (a c c0 : A) (l : list A) :
  forall i : nat,
    nth_error l i = Some c0 -> c0 <> c -> In c l -> In c (put i a l).
Proof.
  induction l as [| x l IH]; intros [| i] Hi Hne Hin; simpl in *;
    try contradiction.
  - injection Hi as ->. destruct Hin as [Hin | Hin]; [contradiction | auto].
  - destruct Hin as [Hin | Hin]; [auto | right; eapply IH; eassumption].
Qed.

Lemma step_keeps_stuck (e e' : Engine.t Q U) (a : action)
                        (m : option Message) :
  In (CStuck m) (Engine.consumers e) ->
  step e a = Next e' ->
  In (CStuck m) (Engine.consumers e').
Proof.
  intros Hin H. destruct a as [| | | | i take_ctx now tie].
  - unfold step in H. destruct (Close (Engine.worker e)); [discriminate |].
    injection H as <-. assumption.
  - break_step H; simpl; auto. apply in_or_app. auto.
  - break_step H; simpl; auto.
  - break_step H; simpl; auto.
  - break_step H; simpl;
      (eapply put_keeps; [eassumption | discriminate | assumption]).
Qed.

(** X17. A consumer that is in an [Exec] that never returns, as after a
    timeout, keeps [Run] from returning for ever: whatever happens next,
    [Close] included, that consumer stays where it is and [wg.Wait()]
    does not return. *)
Theorem Run_held_by_stuck_consumer :
  forall (w : Worker.t U) (s : World Q U) (schedule more : list action)
         (e e' : Engine.t Q U) (m : option Message),
    Run w s schedule = inr e ->
    In (CStuck m) (Engine.consumers e) ->
    run e more = inr e' ->
    In (CStuck m) (Engine.consumers e') /\ Engine.main e' <> MReturned.
Proof.
  intros w s schedule more e e' m Hrun Hin Hmore. unfold Run in Hrun.
  pose proof (run_kept _ (Run_called_kept w s) Hrun) as Hk.
  destruct (run_kept _ Hk Hmore) as [_ [Hw _]].
  assert (Hin' : In (CStuck m) (Engine.consumers e')).
  { apply (run_invariant (fun e0 => In (CStuck m) (Engine.consumers e0)))
      with (schedule := more) (e := e); auto.
    intros e0 a e1. apply step_keeps_stuck. }
  split; [assumption |].
  intros Hret. unfold wait_group in Hw. rewrite Hret in Hw.
  destruct Hw as [_ Hall].
  apply In_nth_error in Hin'. destruct Hin' as [i Hi].
  pose proof (forallb_nth_error _ _ _ Hall Hi). discriminate.
Qed.

(** X18. The channel [messages] never holds more than 10 messages; it is
    closed only by the producer goroutine, as its last act, and only
    after the cancellation, that is after [Close]: nothing is sent on it
    once it is closed. *)
Theorem Run_channel :
  forall (w : Worker.t U) (s : World Q U) (schedule : list action)
         (e : Engine.t Q U),
    Run w s schedule = inr e ->
    (List.length (Engine.messages e) <= 10)%nat
    /\ (Engine.closed e = true ->
        Engine.poller e = PGone
        /\ Engine.cancelled e = true
        /\ Worker.done (Engine.worker e) = SigClosed).
Proof.
  intros w s schedule e Hrun. unfold Run in Hrun.
  destruct (run_kept _ (Run_called_kept w s) Hrun)
    as [[Hc _] [_ [[HL [HC [HP _]]] _]]].
  split; [exact HL |].
  intros Hcl. apply HC in Hcl.
  split; [assumption |]. split; auto.
Qed.

(** X19. Inside the engine no fetched message is lost or duplicated:
    the messages of the responses received without an error are, in
    that order, those taken by the consumers, then those in the
    channel, then those the producer goroutine still holds; and the
    consumers have taken the messages in the order they were pushed. *)
Theorem Run_conserves_messages :
  forall (w : Worker.t U) (s : World Q U) (schedule : list action)
         (e : Engine.t Q U),
    Run w s schedule = inr e ->
    fetched (Engine.trace e)
    = Engine.taken e ++ Engine.messages e ++ pending (Engine.poller e)
    /\ pushed (Engine.trace e) = Engine.taken e ++ Engine.messages e.
Proof.
  intros w s schedule e Hrun. unfold Run in Hrun.
  destruct (run_kept _ (Run_called_kept w s) Hrun) as [_ [_ [_ [Hp Hf]]]].
  split; assumption.
Qed.

End EngineFacts.

(** ** The consumers that Run starts, and the producer it leaves *)

Section EngineMore.

Variables Q U : Type.
Context {sqs : SQSAPI Q}.

(** X22. [Run] starts one consumer per unit of [w.Consumers], and none
    when that number is negative: there are never more, and exactly
    that many once [Run] is in [wg.Wait()]. *)
Theorem Run_starts_Consumers :
  forall (w : Worker.t U) (s : World Q U) (schedule : list action)
         (e : Engine.t Q U),
    Run w s schedule = inr e ->
    (List.length (Engine.consumers e) <= Z.to_nat (Worker.Consumers w))%nat
    /\ ((main_rank (Engine.main e) <= 1)%nat ->
        List.length (Engine.consumers e) = Z.to_nat (Worker.Consumers w)).
Proof.
  intros w s schedule e Hrun. unfold Run in Hrun.
  destruct (run_kept _ (Run_called_kept w s) Hrun) as [_ [Hw _]].
  pose proof (run_Consumers _ _ Hrun) as HC. simpl in HC.
  unfold wait_group in Hw. rewrite HC in Hw.
  destruct (Engine.main e) as [| | | x | |]; simpl.
  - rewrite Hw. simpl. split; [lia | intros; lia].
  - rewrite Hw. simpl. split; [lia | intros; lia].
  - rewrite Hw. simpl. split; [lia | intros; lia].
  - destruct Hw as [Hx ->]. split; [lia | intros; lia].
  - rewrite Hw. split; [lia | reflexivity].
  - destruct Hw as [-> _]. split; [lia | reflexivity].
Qed.

(** X23. [Run] does not wait for the producer goroutine: when it has
    returned while that goroutine is sending on a full channel, nobody
    receives any more; the goroutine stays on that send for ever, the
    ten messages stay in the channel, and the channel is never
    closed. *)
Theorem Run_leaves_producer_blocked :
  forall (w : Worker.t U) (s : World Q U) (schedule more : list action)
         (e e' : Engine.t Q U) (m : Message) (rest : list Message),
    Run w s schedule = inr e ->
    Engine.main e = MReturned ->
    Engine.poller e = PSend (m :: rest) ->
    List.length (Engine.messages e) = messages_cap ->
    run e more = inr e' ->
    Engine.poller e' = PSend (m :: rest)
    /\ Engine.messages e' = Engine.messages e
    /\ Engine.closed e' = false.
Proof.
  intros w s schedule more e e' m rest Hrun Hret Hsend Hfull Hmore.
  unfold Run in Hrun.
  destruct (run_kept _ (Run_called_kept w s) Hrun)
    as [_ [Hw [[_ [HC _]] _]]].
  unfold wait_group in Hw. rewrite Hret in Hw. destruct Hw as [_ Hall].
  assert (Hopen : Engine.closed e = false).
  { destruct (Engine.closed e); [| reflexivity].
    destruct HC as [HC _]. rewrite Hsend in HC.
    specialize (HC eq_refl). discriminate. }
  assert (HP : forallb is_CGone (Engine.consumers e') = true
               /\ Engine.main e' = MReturned
               /\ Engine.poller e' = PSend (m :: rest)
               /\ Engine.messages e' = Engine.messages e
               /\ Engine.closed e' = false).
  { apply (run_invariant
             (fun e0 : Engine.t Q U =>
                forallb is_CGone (Engine.consumers e0) = true
                /\ Engine.main e0 = MReturned
                /\ Engine.poller e0 = PSend (m :: rest)
                /\ Engine.messages e0 = Engine.messages e
                /\ Engine.closed e0 = false))
      with (schedule := more) (e := e); auto.
    clear - Hfull. intros e0 a e1 [Hall [Hret [Hsend [Hbuf Hopen]]]] Hs.
    destruct a as [| | | | i take_ctx now tie].
    - unfold step in Hs. destruct (Close (Engine.worker e0));
        [discriminate |]. injection Hs as <-. simpl. auto.
    - unfold step, step_main in Hs. rewrite Hret in Hs. discriminate.
    - unfold step, step_poller in Hs. rewrite Hsend, Hbuf, Hfull in Hs.
      simpl in Hs. discriminate.
    - break_step Hs; simpl; auto.
    - unfold step, step_consumer in Hs.
      destruct (nth_error (Engine.consumers e0) i) as [c |] eqn:Hi;
        [| discriminate].
      pose proof (forallb_nth_error _ _ _ Hall Hi) as Hc.
      destruct c; discriminate. }
  destruct HP as [_ [_ [H1 [H2 H3]]]]. auto.
Qed.

End EngineMore.

(** ** Panics *)

Section EnginePanics.

Variables Q U : Type.
Context {sqs : SQSAPI Q}.




End EnginePanics.

(** ** What Run logs *)

Section EngineLog.

Variables Q U : Type.
Context {sqs : SQSAPI Q}.

Lemma Close_keeps (w w' : Worker.t U) (pc : main_pc) :
  Close w = inr w' -> info_lines w' pc = info_lines w pc.
Proof.
  unfold Close. destruct (close (Worker.done w)); [discriminate |].
  intros H; injection H as <-. reflexivity.
Qed.

Lemma step_info_logged (e e' : Engine.t Q U) (a : action) :
  info_logged e -> step e a = Next e' -> info_logged e'.
Proof.
  unfold info_logged. intros HI H.
  destruct a as [| | | | i take_ctx now tie].
  - unfold step in H. destruct (Close (Engine.worker e)) as [p | w'] eqn:HC;
      [discriminate |]. injection H as <-. simpl.
    rewrite (@Close_keeps _ _ _ HC). assumption.
  - unfold step, step_main in H.
    destruct (Engine.main e) eqn:Hm; unfold info_lines in *;
      break_step H; simpl; rewrite ?filter_app, ?HI; simpl;
      rewrite ?E, ?E0; reflexivity.
  - break_step H; simpl; rewrite ?filter_app, ?HI; simpl;
      rewrite ?app_nil_r; reflexivity.
  - break_step H; simpl; rewrite ?filter_app, ?HI; simpl;
      rewrite ?app_nil_r; reflexivity.
  - break_step H; simpl; rewrite ?filter_app, ?HI; simpl;
      rewrite ?app_nil_r; reflexivity.
Qed.

(** X21. [Run] logs two lines and no other goroutine logs any: once its
    loop has begun, the info lines recorded are "Staring producer" and
    "Staring consumer with N consumers", N being [w.Consumers] in
    decimal, in that order, both under the worker's name; a worker
    without a logger records none. *)
Theorem Run_info_lines :
  forall (w : Worker.t U) (s : World Q U) (schedule : list action)
         (e : Engine.t Q U),
    Run w s schedule = inr e ->
    (2 >= main_rank (Engine.main e))%nat ->
    filter is_LogInfo (Engine.trace e)
    = if has_logger w
      then [EvLogInfo "Staring producer" (Worker.Name w);
            EvLogInfo (String.append "Staring consumer with "
                         (String.append
                            (DecimalString.NilZero.string_of_int
                               (Z.to_int (Worker.Consumers w)))
                            " consumers"))
                      (Worker.Name w)]
      else [].
Proof.
  intros w s schedule e Hrun Hrank. unfold Run in Hrun.
  assert (HI : info_logged e).
  { apply (run_invariant (@info_logged Q U)
             (fun e0 a e1 => @step_info_logged e0 e1 a))
      with (schedule := schedule) (e := Run_called w s); [| assumption].
    unfold info_logged, info_lines. simpl.
    destruct (Worker.Logger w); reflexivity. }
  assert (Hw : forall pc, info_lines (Engine.worker e) pc = info_lines w pc).
  { intros pc.
    apply (run_invariant
             (fun e0 : Engine.t Q U =>
                info_lines (Engine.worker e0) pc = info_lines w pc))
      with (schedule := schedule) (e := Run_called w s); auto.
    intros e0 a e1 H0 Hs. rewrite <- H0.
    destruct (is_ActClose a) eqn:Ha.
    - destruct a; try discriminate. unfold step in Hs.
      destruct (Close (Engine.worker e0)) as [p | w'] eqn:HC;
        [discriminate |].
      injection Hs as <-. simpl. apply (@Close_keeps _ _ _ HC).
    - rewrite (step_worker _ _ Ha Hs). reflexivity. }
  unfold info_logged in HI. rewrite HI, Hw.
  unfold info_lines, has_logger, Sprint_consumers.
  destruct (Worker.Logger w); [| reflexivity].
  destruct (Engine.main e); simpl in Hrank; try lia; reflexivity.
Qed.

End EngineLog.

(** ** The consumer of the engine and the consumer loop *)

Section EngineConsumer.

Variables Q U : Type.
Context {sqs : SQSAPI Q}.

Lemma put_nth_error (A : Type) (a c : A) (l : list A) :
  forall i : nat,
    nth_error l i = Some c -> nth_error (put i a l) i = Some a.
Proof.
  induction l as [| x l IH]; intros [| i] H; simpl in *;
    try discriminate; auto.
Qed.

Lemma run_next (e e1 : Engine.t Q U) (a : action) (rest : list action) :
  step e a = Next e1 -> run e (a :: rest) = run e1 rest.
Proof. intros H. simpl. rewrite H. reflexivity. Qed.

Lemma move_CHandled (e : Engine.t Q U) (i : nat) (take_ctx : bool)
      (now : Z) (tie : bool) (st : locals) (msg : option Message)
      (result : list byte) (err : error) :
  nth_error (Engine.consumers e) i = Some (CHandled st msg result err) ->
  let w := Engine.worker e in
  exists e1 : Engine.t Q U,
    step e (ActConsumer i take_ctx now tie) = Next e1
    /\ moved e e1 i
         (match err with
          | Some _ => CSelect st
          | None =>
              CForward st msg (written w result err (Engine.world e))
          end)
         (called_back w result err (Engine.world e))
         (callback_events w result err
          ++ match err with
             | Some err => logged w "handler failed!" err
             | None => []
             end).
Proof.
  intros Hn w. unfold step, step_consumer, set_consumer, after.
  rewrite Hn. rewrite callback_run. fold w.
  destruct err as [err |]; simpl.
  - eexists. split; [reflexivity |]. unfold moved; simpl.
    rewrite (put_nth_error _ _ _ Hn), <- app_assoc. auto.
  - eexists. split; [reflexivity |]. unfold moved; simpl.
    rewrite (put_nth_error _ _ _ Hn), app_nil_r. auto.
Qed.

(** The move of a consumer that is about to forward. *)
Lemma move_CForward (e : Engine.t Q U) (i : nat) (take_ctx : bool)
      (now : Z) (tie : bool) (st : locals) (msg : option Message)
      (data : list byte) :
  nth_error (Engine.consumers e) i = Some (CForward st msg data) ->
  let w := Engine.worker e in
  let send := {| send_QueueUrl := send_QueueUrl (sendInput st);
                 MessageBody := Some (string_of_list_byte data) |} in
  let st' := {| sendInput := send; deleteInput := deleteInput st;
                hanlderInput := hanlderInput st;
                msgString := string_of_list_byte data |} in
  let '(serr, s2, tr2) := sendMessage w send (Engine.world e) in
  exists e2 : Engine.t Q U,
    step e (ActConsumer i take_ctx now tie) = Next e2
    /\ moved e e2 i
         (match serr with
          | Some _ => CSelect st'
          | None => CAck st' msg
          end)
         s2
         (tr2 ++ match serr with
                 | Some err => logged w "send message failed!" err
                 | None => []
                 end).
Proof.
  intros Hn w send st'. unfold step, step_consumer, set_consumer, after.
  rewrite Hn. fold w. fold send.
  destruct (sendMessage w send (Engine.world e)) as [[serr s2] tr2].
  destruct serr as [serr |]; simpl.
  - eexists. split; [reflexivity |]. unfold moved; simpl.
    rewrite (put_nth_error _ _ _ Hn), <- app_assoc. auto.
  - eexists. split; [reflexivity |]. unfold moved; simpl.
    rewrite (put_nth_error _ _ _ Hn), app_nil_r. auto.
Qed.

(** The move of a consumer that is about to acknowledge a message. *)
Lemma move_CAck (e : Engine.t Q U) (i : nat) (take_ctx : bool)
      (now : Z) (tie : bool) (st : locals) (msg : Message) :
  nth_error (Engine.consumers e) i = Some (CAck st (Some msg)) ->
  let w := Engine.worker e in
  let del := {| delete_QueueUrl := delete_QueueUrl (deleteInput st);
                delete_ReceiptHandle := Some (ReceiptHandle msg) |} in
  let st' := {| sendInput := sendInput st; deleteInput := del;
                hanlderInput := hanlderInput st;
                msgString := msgString st |} in
  let '(derr, s3, tr3) := deleteMessage del (Engine.world e) in
  exists e3 : Engine.t Q U,
    step e (ActConsumer i take_ctx now tie) = Next e3
    /\ moved e e3 i (CSelect st') s3
         (tr3 ++ match derr with
                 | Some err => logged w "delete message failed!" err
                 | None => []
                 end).
Proof.
  intros Hn w del st'. unfold step, step_consumer, set_consumer, after.
  rewrite Hn. fold w. fold del.
  destruct (deleteMessage del (Engine.world e)) as [[derr s3] tr3].
  destruct derr as [derr |]; simpl.
  - eexists. split; [reflexivity |]. unfold moved; simpl.
    rewrite (put_nth_error _ _ _ Hn), <- app_assoc. auto.
  - eexists. split; [reflexivity |]. unfold moved; simpl.
    rewrite (put_nth_error _ _ _ Hn), app_nil_r. auto.
Qed.

(** X20. Taken without interruption, the moves of a consumer of the
    engine that is back from [Exec] do for the message what the loop of
    [consumer] does for it: in at most three moves the consumer is back
    at its select with the same variables, and the world and the events
    recorded are those of the loop. *)
Theorem engine_consumer_handles :
  forall (e : Engine.t Q U) (i : nat) (take_ctx : bool) (now : Z)
         (tie : bool) (st st1 : locals) (msg : option Message)
         (result : list byte) (err : error) (s1 : World Q U)
         (tr : list Event),
    nth_error (Engine.consumers e) i = Some (CHandled st msg result err) ->
    handled (Engine.worker e) st msg result err (Engine.world e)
    = (inr st1, s1, tr) ->
    exists (k : nat) (e' : Engine.t Q U),
      (1 <= k <= 3)%nat
      /\ run e (repeat (ActConsumer i take_ctx now tie) k) = inr e'
      /\ nth_error (Engine.consumers e') i = Some (CSelect st1)
      /\ Engine.world e' = s1
      /\ Engine.trace e' = Engine.trace e ++ tr.
Proof.
  intros e i take_ctx now tie st st1 msg result err s1 tr Hn HH.
  destruct (move_CHandled e i take_ctx now tie Hn)
    as [e1 [Hs1 [Hw1 [Hn1 [Hs Ht]]]]].
  revert HH. rewrite handled_run.
  unfold forward_and_acknowledge, bind.
  destruct err as [err |].
  - (* the handler failed: one move *)
    rewrite LogError_run. simpl. intros HH. injection HH as <- <- <-.
    exists 1%nat, e1. simpl repeat. rewrite (@run_next _ _ _ _ Hs1).
    rewrite app_nil_r. repeat split; auto.
  - (* the second move forwards *)
    cbv zeta. rewrite <- Hs.
    pose proof (move_CForward e1 i take_ctx now tie Hn1) as Hs2.
    cbv zeta in Hs2. rewrite Hw1 in Hs2.
    destruct (sendMessage (Engine.worker e) _ (Engine.world e1))
      as [[serr s2] tr2].
    destruct Hs2 as [e2 [Hs2 [Hw2 [Hn2 [Hwd2 Ht2]]]]].
    destruct serr as [serr |].
    + (* forwarding failed: two moves *)
      rewrite LogError_run. simpl. intros HH. injection HH as <- <- <-.
      exists 2%nat, e2. simpl repeat.
      rewrite (@run_next _ _ _ _ Hs1), (@run_next _ _ _ _ Hs2).
      rewrite Ht2, Ht, <- ?app_assoc. simpl. rewrite ?app_nil_r.
      repeat split; auto; lia.
    + (* the third move acknowledges *)
      destruct msg as [msg |]; [| simpl; discriminate].
      pose proof (move_CAck e2 i take_ctx now tie Hn2) as Hs3.
      cbv zeta in Hs3. rewrite Hw2, Hw1, Hwd2 in Hs3.
      cbn [deleteInput sendInput hanlderInput msgString] in Hs3.
      simpl.
      destruct (deleteMessage _ s2) as [[derr s3] tr3].
      destruct Hs3 as [e3 [Hs3 [Hw3 [Hn3 [Hwd3 Ht3]]]]].
      destruct derr as [derr |]; rewrite ?LogError_run; simpl;
        intros HH; injection HH as <- <- <-;
        exists 3%nat, e3; simpl repeat;
        rewrite (@run_next _ _ _ _ Hs1), (@run_next _ _ _ _ Hs2),
                (@run_next _ _ _ _ Hs3);
        rewrite Ht3, Ht2, Ht, <- ?app_assoc; simpl; rewrite ?app_nil_r;
        repeat split; auto; lia.
Qed.

End EngineConsumer.

(** ** Run on the sample worker *)

Lemma Run_returns_after_Close_witness :
  0 < Worker.Consumers Mock.worker
  /\ Worker.done Mock.worker <> SigClosed
  /\ (exists e : Engine.t Mock.t nat,
         Run (sqs := Mock.sqs) Mock.worker Mock.drained Schedules.through_nil
         = inr e
         /\ Engine.main e = MReturned
         /\ filter is_Callback (Engine.trace e)
            = [EvCallback (list_byte_of_string "nil") None])
  /\ Worker.done Mock.worker = SigOpen
  /\ closes Schedules.through_nil = 1%nat.
Proof.
  split; [reflexivity |]. split; [discriminate |].
  destruct (Run (sqs := Mock.sqs) Mock.worker Mock.drained
                Schedules.through_nil)
    as [p | e] eqn:HR; [vm_compute in HR; discriminate |].
  assert (Hm : Engine.main e = MReturned
               /\ filter is_Callback (Engine.trace e)
                  = [EvCallback (list_byte_of_string "nil") None]).
  { pose proof HR as HR'. vm_compute in HR'. injection HR' as <-.
    split; reflexivity. }
  split; [exists e; split; [reflexivity | exact Hm] |].
  apply (@Run_returns_after_Close Mock.t nat Mock.sqs Mock.worker
           Mock.drained Schedules.through_nil e);
    [reflexivity | discriminate | exact HR | exact (proj1 Hm)].
Defined.

Lemma Run_without_consumers_witness :
  Worker.Consumers Schedules.no_consumers <= 0
  /\ (exists e : Engine.t Mock.t nat,
         Run (sqs := Mock.sqs) Schedules.no_consumers Mock.world
             [ActPoller; ActMain; ActPoller]
         = inr e
         /\ Engine.consumers e = []
         /\ exists e' : Engine.t Mock.t nat,
              run (sqs := Mock.sqs) e
                  [ActMain; ActMain; ActMain; ActMain; ActMain] = inr e'
              /\ Engine.main e' = MReturned).
Proof.
  split; [vm_compute; discriminate |].
  destruct (Run (sqs := Mock.sqs) Schedules.no_consumers Mock.world
                [ActPoller; ActMain; ActPoller])
    as [p | e] eqn:HR; [vm_compute in HR; discriminate |].
  exists e. split; [reflexivity |].
  apply (@Run_without_consumers Mock.t nat Mock.sqs Schedules.no_consumers
           Mock.world [ActPoller; ActMain; ActPoller] e);
    [vm_compute; discriminate | exact HR].
Defined.

Lemma Run_held_by_stuck_consumer_witness :
  exists e : Engine.t Mock.t nat,
    Run (sqs := Mock.sqs) Mock.worker Mock.backlog Schedules.timeout = inr e
    /\ In (CStuck (Some (Mock.msg "a" "T2"))) (Engine.consumers e)
    /\ exists e' : Engine.t Mock.t nat,
         run (sqs := Mock.sqs) e Schedules.wind_down = inr e'
         /\ In (CStuck (Some (Mock.msg "a" "T2"))) (Engine.consumers e')
         /\ Engine.main e' <> MReturned.
Proof.
  destruct (Run (sqs := Mock.sqs) Mock.worker Mock.backlog Schedules.timeout)
    as [p | e] eqn:HR; [vm_compute in HR; discriminate |].
  assert (Hin : In (CStuck (Some (Mock.msg "a" "T2"))) (Engine.consumers e)).
  { pose proof HR as HR'. vm_compute in HR'. injection HR' as <-.
    left. reflexivity. }
  exists e. split; [reflexivity |]. split; [exact Hin |].
  destruct (run (sqs := Mock.sqs) e Schedules.wind_down)
    as [p | e'] eqn:HM.
  - exfalso. pose proof HR as HR'. vm_compute in HR'. injection HR' as <-.
    vm_compute in HM. discriminate.
  - exists e'. split; [reflexivity |].
    apply (@Run_held_by_stuck_consumer Mock.t nat Mock.sqs Mock.worker
             Mock.backlog Schedules.timeout Schedules.wind_down e e'
             (Some (Mock.msg "a" "T2")) HR Hin HM).
Defined.

Lemma Run_channel_witness :
  exists e : Engine.t Mock.t nat,
    Run (sqs := Mock.sqs) Mock.worker Mock.backlog
        (Schedules.timeout ++ Schedules.wind_down) = inr e
    /\ (List.length (Engine.messages e) <= 10)%nat
    /\ (Engine.closed e = true ->
        Engine.poller e = PGone
        /\ Engine.cancelled e = true
        /\ Worker.done (Engine.worker e) = SigClosed).
Proof.
  destruct (Run (sqs := Mock.sqs) Mock.worker Mock.backlog
                (Schedules.timeout ++ Schedules.wind_down))
    as [p | e] eqn:HR; [vm_compute in HR; discriminate |].
  exists e. split; [reflexivity |].
  apply (@Run_channel Mock.t nat Mock.sqs Mock.worker Mock.backlog
           (Schedules.timeout ++ Schedules.wind_down) e HR).
Defined.

Lemma Run_conserves_messages_witness :
  exists e : Engine.t Mock.t nat,
    Run (sqs := Mock.sqs) Mock.worker Mock.backlog Schedules.timeout = inr e
    /\ fetched (Engine.trace e)
       = Engine.taken e ++ Engine.messages e ++ pending (Engine.poller e)
    /\ pushed (Engine.trace e) = Engine.taken e ++ Engine.messages e.
Proof.
  destruct (Run (sqs := Mock.sqs) Mock.worker Mock.backlog Schedules.timeout)
    as [p | e] eqn:HR; [vm_compute in HR; discriminate |].
  exists e. split; [reflexivity |].
  apply (@Run_conserves_messages Mock.t nat Mock.sqs Mock.worker Mock.backlog
           Schedules.timeout e HR).
Defined.

Lemma engine_consumer_handles_witness :
  exists (e : Engine.t Mock.t nat) (st : locals),
    Run (sqs := Mock.sqs) Mock.worker Mock.world Schedules.handle_one = inr e
    /\ nth_error (Engine.consumers e) 0
       = Some (CHandled st (Some (Mock.msg "a" "T1"))
                        (list_byte_of_string "a") None)
    /\ exists (k : nat) (e' : Engine.t Mock.t nat),
         (1 <= k <= 3)%nat
         /\ run (sqs := Mock.sqs) e (repeat (ActConsumer 0 false 20 true) k)
            = inr e'
         /\ exists st1 : locals,
              nth_error (Engine.consumers e') 0 = Some (CSelect st1)
              /\ handled (sqs := Mock.sqs) (Engine.worker e) st
                         (Some (Mock.msg "a" "T1"))
                         (list_byte_of_string "a") None
                         (Engine.world e)
                 = (inr st1, Engine.world e',
                    skipn (List.length (Engine.trace e)) (Engine.trace e')).
Proof.
  destruct (Run (sqs := Mock.sqs) Mock.worker Mock.world Schedules.handle_one)
    as [p | e] eqn:HR; [vm_compute in HR; discriminate |].
  assert (Hn : exists st : locals,
             nth_error (Engine.consumers e) 0
             = Some (CHandled st (Some (Mock.msg "a" "T1"))
                              (list_byte_of_string "a") None)).
  { pose proof HR as HR'. vm_compute in HR'. injection HR' as <-.
    eexists. reflexivity. }
  destruct Hn as [st Hn].
  exists e, st. split; [reflexivity |]. split; [exact Hn |].
  destruct (handled (sqs := Mock.sqs) (Engine.worker e) st
                    (Some (Mock.msg "a" "T1")) (list_byte_of_string "a") None
                    (Engine.world e))
    as [[r s1] tr] eqn:HH.
  destruct (@handled_message _ _ _ _ _ _ _ _ _ _ _ _ HH) as [st1 ->].
  destruct (@engine_consumer_handles Mock.t nat Mock.sqs e 0%nat false 20 true
              st st1 (Some (Mock.msg "a" "T1")) (list_byte_of_string "a")
              None s1 tr Hn HH)
    as [k [e' [Hk [Hrun [Hn' [Hw Ht]]]]]].
  exists k, e'. split; [exact Hk |]. split; [exact Hrun |].
  exists st1. split; [exact Hn' |].
  rewrite Hw, Ht, skipn_app, skipn_all, Nat.sub_diag. reflexivity.
Defined.

Lemma Run_info_lines_witness :
  exists e : Engine.t Mock.t nat,
    Run (sqs := Mock.sqs) Mock.worker Mock.world Schedules.startup = inr e
    /\ (2 >= main_rank (Engine.main e))%nat
    /\ filter is_LogInfo (Engine.trace e)
       = [EvLogInfo "Staring producer" "TestApp";
          EvLogInfo "Staring consumer with 4 consumers" "TestApp"].
Proof.
  destruct (Run (sqs := Mock.sqs) Mock.worker Mock.world Schedules.startup)
    as [p | e] eqn:HR; [vm_compute in HR; discriminate |].
  assert (Hr : (2 >= main_rank (Engine.main e))%nat).
  { pose proof HR as HR'. vm_compute in HR'. injection HR' as <-.
    simpl. lia. }
  exists e. split; [reflexivity |]. split; [exact Hr |].
  rewrite (@Run_info_lines Mock.t nat Mock.sqs Mock.worker Mock.world
             Schedules.startup e HR Hr).
  reflexivity.
Defined.

Lemma Run_starts_Consumers_witness :
  exists e : Engine.t Mock.t nat,
    Run (sqs := Mock.sqs) Mock.worker Mock.world Schedules.startup = inr e
    /\ (main_rank (Engine.main e) <= 1)%nat
    /\ List.length (Engine.consumers e) = 4%nat.
Proof.
  destruct (Run (sqs := Mock.sqs) Mock.worker Mock.world Schedules.startup)
    as [p | e] eqn:HR; [vm_compute in HR; discriminate |].
  assert (Hr : (main_rank (Engine.main e) <= 1)%nat).
  { pose proof HR as HR'. vm_compute in HR'. injection HR' as <-.
    simpl. lia. }
  exists e. split; [reflexivity |]. split; [exact Hr |].
  apply (proj2 (@Run_starts_Consumers Mock.t nat Mock.sqs Mock.worker
                  Mock.world Schedules.startup e HR) Hr).
Defined.

Lemma Run_leaves_producer_blocked_witness :
  exists (e : Engine.t Mock.t nat) (rest : list Message),
    Run (sqs := Mock.sqs) Mock.worker Mock.flood Schedules.overflow = inr e
    /\ Engine.main e = MReturned
    /\ Engine.poller e = PSend (Mock.msg "a" "T11" :: rest)
    /\ List.length (Engine.messages e) = messages_cap
    /\ exists e' : Engine.t Mock.t nat,
         run (sqs := Mock.sqs) e [ActPoller; ActCanceller; ActPoller] = inr e'
         /\ Engine.poller e' = PSend (Mock.msg "a" "T11" :: rest)
         /\ Engine.messages e' = Engine.messages e
         /\ Engine.closed e' = false.
Proof.
  destruct (Run (sqs := Mock.sqs) Mock.worker Mock.flood Schedules.overflow)
    as [p | e] eqn:HR; [vm_compute in HR; discriminate |].
  assert (H : Engine.main e = MReturned
              /\ Engine.poller e = PSend [Mock.msg "a" "T11"]
              /\ List.length (Engine.messages e) = messages_cap).
  { pose proof HR as HR'. vm_compute in HR'. injection HR' as <-.
    repeat split. }
  destruct H as [Hm [Hp Hl]].
  exists e, []. split; [reflexivity |].
  split; [exact Hm |]. split; [exact Hp |]. split; [exact Hl |].
  destruct (run (sqs := Mock.sqs) e [ActPoller; ActCanceller; ActPoller])
    as [p | e'] eqn:HM.
  - exfalso. pose proof HR as HR'. vm_compute in HR'. injection HR' as <-.
    vm_compute in HM. discriminate.
  - exists e'. split; [reflexivity |].
    apply (@Run_leaves_producer_blocked Mock.t nat Mock.sqs Mock.worker
             Mock.flood Schedules.overflow [ActPoller; ActCanceller; ActPoller]
             e e' (Mock.msg "a" "T11") [] HR Hm Hp Hl HM).
Defined.

